(** * Whale tracking core of whalescope (src/src/services/helius.ts)

    A shallow embedding of the transaction classifier, the movement store,
    the pattern detector and the whale registry.  JavaScript numbers are
    IEEE-754 doubles and are modelled as Rocq's primitive floats; array
    lengths and counters that only ever hold small integers are [nat].
    The process-wide mutable stores ([movementsByToken], [recentMovements],
    [whaleRegistry]) are threaded explicitly as state, and [Date.now()] is
    an explicit argument. *)

From Stdlib Require Import PrimFloat SpecFloat FloatOps FloatAxioms Uint63 ZArith Ascii String.
From stdpp Require Import base list gmap strings pretty.

Open Scope string_scope.

(* ------------------------------------------------------------------ *)
(** ** JavaScript helpers *)

(** [String.prototype.toUpperCase] for ASCII text only: strings are modelled
    as ASCII, so the classifier's labels are taken to be ASCII (Helius type
    and source names are).  On other text JavaScript also maps characters
    such as ı, ſ and ß, which this model does not cover. *)
Definition ascii_upper (c : ascii) : ascii :=
  let n := nat_of_ascii c in
  if (97 <=? n)%nat && (n <=? 122)%nat then ascii_of_nat (n - 32) else c.

Fixpoint toUpperCase (s : string) : string :=
  match s with
  | EmptyString => EmptyString
  | String c s' => String (ascii_upper c) (toUpperCase s')
  end.

Fixpoint startsWith (s k : string) {struct k} : bool :=
  match k, s with
  | EmptyString, _ => true
  | String c k', String d s' => Ascii.eqb c d && startsWith s' k'
  | String _ _, EmptyString => false
  end.

(** [String.prototype.includes]. *)
Fixpoint includes (s k : string) : bool :=
  startsWith s k ||
  match s with
  | EmptyString => false
  | String _ s' => includes s' k
  end.

(** [x?.toUpperCase() || ''] *)
Definition upper_or_empty (x : option string) : string :=
  match x with
  | Some s => toUpperCase s
  | None => ""
  end.

(** Number conversions and the [Math] functions the code uses. *)
Definition num (n : nat) : float := of_uint63 (Uint63.of_Z (Z.of_nat n)).

Definition nan : float := (0 / 0)%float.
Definition infinity : float := (1 / 0)%float.

Definition is_nan_f (x : float) : bool := negb (x =? x)%float.

(** [Math.min(a, b)]: NaN if either argument is NaN; -0 below +0. *)
Definition js_min (a b : float) : float :=
  if is_nan_f a then a else if is_nan_f b then b
  else if (b <? a)%float then b
  else if (a =? b)%float && get_sign b then b
  else a.

(** [Math.max(a, b)]: NaN if either argument is NaN; +0 above -0. *)
Definition js_max (a b : float) : float :=
  if is_nan_f a then a else if is_nan_f b then b
  else if (a <? b)%float then b
  else if (a =? b)%float && get_sign a then b
  else a.

(** [Math.min(...xs)] and [Math.max(...xs)]; [Math.min()] is [Infinity]. *)
Definition js_min_list (xs : list float) : float := fold_left js_min xs infinity.
Definition js_max_list (xs : list float) : float := fold_left js_max xs (- infinity)%float.

(** [x || 0] on a number: 0, -0 and NaN are falsy. *)
Definition or_zero (x : float) : float :=
  if is_nan_f x || (x =? 0)%float then 0%float else x.

(* ------------------------------------------------------------------ *)
(** ** Data model (src/src/types/index.ts and the shapes used in helius.ts) *)

Inductive TransactionType :=
  | Swap | Transfer | Stake | Unstake | Mint | Burn | Unknown.

Record HeliusTokenTransfer := {
  tt_fromUserAccount : string;
  tt_toUserAccount : string;
  tt_mint : string;
  tt_tokenAmount : float;
}.

Record HeliusNativeTransfer := {
  nt_fromUserAccount : string;
  nt_toUserAccount : string;
  nt_amount : float;
}.

(** [HeliusEnhancedTransaction]: the optional fields are [option]s. *)
Record HeliusEnhancedTransaction := {
  htx_signature : string;
  htx_timestamp : float;
  htx_type : option string;
  htx_source : option string;
  htx_fee : float;
  htx_nativeTransfers : option (list HeliusNativeTransfer);
  htx_tokenTransfers : option (list HeliusTokenTransfer);
}.

(* ------------------------------------------------------------------ *)
(** ** Transaction classifier ([classifyTransactionType], lines 266-302) *)

Definition classifyTransactionType (tx : HeliusEnhancedTransaction) : TransactionType :=
  let typeStr := upper_or_empty (htx_type tx) in
  let source := upper_or_empty (htx_source tx) in
  if includes typeStr "SWAP" || includes source "JUPITER" ||
     includes source "RAYDIUM" || includes source "ORCA" then Swap
  else if includes typeStr "STAKE" || includes source "MARINADE" ||
          includes source "JITO" then
    (if includes typeStr "UNSTAKE" || includes typeStr "WITHDRAW" then Unstake
     else Stake)
  else if includes typeStr "TRANSFER" ||
          (match htx_tokenTransfers tx with
           | Some l => (length l =? 1)%nat
           | None => false
           end) ||
          (match htx_nativeTransfers tx with
           | Some l => (0 <? length l)%nat
           | None => false
           end) then Transfer
  else Unknown.

(** The decision order of the classifier as the spec states it: a
    case-insensitive substring test is a factorisation of the upper-cased
    label, and transfer counts are read off the (possibly absent) lists. *)
Definition label_has (lbl : option string) (k : string) : Prop :=
  exists pre post, upper_or_empty lbl = pre ++ k ++ post.

Lemma startsWith_spec (s k : string) :
  startsWith s k = true <-> exists post, s = k ++ post.
Proof.
  revert s. induction k as [|c k IH]; intros s; simpl.
  - split; [intros _; now exists s | auto].
  - destruct s as [|d s]; simpl.
    + split; [discriminate | intros [post H]; discriminate].
    + rewrite andb_true_iff, Ascii.eqb_eq, IH. split.
      * intros [-> [post ->]]. now exists post.
      * intros [post H]. injection H as -> ->. eauto.
Qed.

Lemma includes_spec (s k : string) :
  includes s k = true <-> exists pre post, s = pre ++ k ++ post.
Proof.
  induction s as [|c s IH]; simpl; rewrite orb_true_iff, startsWith_spec.
  - split.
    + intros [[post H] | H]; [exists "", post; exact H | discriminate].
    + intros [pre [post H]]. left. exists post.
      destruct pre; simpl in H; [exact H | discriminate].
  - rewrite IH. split.
    + intros [[post H] | [pre [post H]]].
      * exists "", post. exact H.
      * exists (String c pre), post. simpl. now rewrite H.
    + intros [pre [post H]]. destruct pre as [|d pre]; simpl in H.
      * left. now exists post.
      * right. injection H as _ H. eauto.
Qed.

#[global] Instance label_has_dec lbl k : Decision (label_has lbl k).
Proof.
  destruct (includes (upper_or_empty lbl) k) eqn:E.
  - left. now apply includes_spec.
  - right. intros H. apply includes_spec in H. congruence.
Defined.

Lemma bool_decide_label_has lbl k :
  bool_decide (label_has lbl k) = includes (upper_or_empty lbl) k.
Proof.
  apply eq_bool_prop_intro. rewrite bool_decide_spec. unfold label_has.
  rewrite Is_true_true, includes_spec. reflexivity.
Qed.

Definition token_transfer_count (tx : HeliusEnhancedTransaction) : nat :=
  length (default [] (htx_tokenTransfers tx)).

Definition native_transfer_count (tx : HeliusEnhancedTransaction) : nat :=
  length (default [] (htx_nativeTransfers tx)).

Definition is_swap_signal (tx : HeliusEnhancedTransaction) : Prop :=
  label_has (htx_type tx) "SWAP" \/ label_has (htx_source tx) "JUPITER" \/
  label_has (htx_source tx) "RAYDIUM" \/ label_has (htx_source tx) "ORCA".

Definition is_stake_signal (tx : HeliusEnhancedTransaction) : Prop :=
  label_has (htx_type tx) "STAKE" \/ label_has (htx_source tx) "MARINADE" \/
  label_has (htx_source tx) "JITO".

Definition is_unstake_signal (tx : HeliusEnhancedTransaction) : Prop :=
  label_has (htx_type tx) "UNSTAKE" \/ label_has (htx_type tx) "WITHDRAW".

Definition is_transfer_signal (tx : HeliusEnhancedTransaction) : Prop :=
  label_has (htx_type tx) "TRANSFER" \/ token_transfer_count tx = 1%nat \/
  (1 <= native_transfer_count tx)%nat.

Definition classify_spec (tx : HeliusEnhancedTransaction) : TransactionType :=
  if bool_decide (is_swap_signal tx) then Swap
  else if bool_decide (is_stake_signal tx) then
    (if bool_decide (is_unstake_signal tx) then Unstake else Stake)
  else if bool_decide (is_transfer_signal tx) then Transfer
  else Unknown.

Lemma bool_decide_token_transfer_one tx :
  bool_decide (token_transfer_count tx = 1%nat) =
  match htx_tokenTransfers tx with
  | Some l => (length l =? 1)%nat
  | None => false
  end.
Proof.
  unfold token_transfer_count.
  destruct (htx_tokenTransfers tx) as [l|]; simpl.
  - apply eq_bool_prop_intro. rewrite bool_decide_spec, Is_true_true, Nat.eqb_eq.
    reflexivity.
  - reflexivity.
Qed.

Lemma bool_decide_native_transfer_some tx :
  bool_decide (1 <= native_transfer_count tx)%nat =
  match htx_nativeTransfers tx with
  | Some l => (0 <? length l)%nat
  | None => false
  end.
Proof.
  unfold native_transfer_count.
  destruct (htx_nativeTransfers tx) as [l|]; simpl.
  - apply eq_bool_prop_intro. rewrite bool_decide_spec, Is_true_true, Nat.ltb_lt.
    lia.
  - reflexivity.
Qed.


(* ------------------------------------------------------------------ *)
(** ** Parsed transactions, movements and configuration *)

(** The [TokenHolder] objects built by [parseTransactionData]: mint,
    raw amount, decimals and display amount. *)
Record TokenHolder := {
  th_mint : string;
  th_amount : float;
  th_decimals : float;
  th_uiAmount : float;
}.

Record ParsedTransaction := {
  ptx_signature : string;
  ptx_timestamp : float;
  ptx_type : TransactionType;
  ptx_source : string;
  ptx_fee : float;
  ptx_success : bool;
  ptx_tokenIn : option TokenHolder;
  ptx_tokenOut : option TokenHolder;
  ptx_transfer : option TokenHolder;
}.

Inductive Direction := In | Out.

Record WhaleMovement := {
  mv_id : string;
  mv_timestamp : float;
  mv_whale : string;
  mv_type : TransactionType;
  mv_tokenMint : string;
  mv_amount : float;
  mv_usdValue : float;
  mv_signature : string;
  mv_direction : Direction;
}.

Record WhaleConfig := {
  minWhaleHoldingsUsd : float;
  minMovementUsd : float;
  patternWindowMs : float;
  minPatternTxCount : float;
}.

Definition DEFAULT_WHALE_CONFIG : WhaleConfig := {|
  minWhaleHoldingsUsd := 100000;
  minMovementUsd := 10000;
  patternWindowMs := 86400000;
  minPatternTxCount := 3;
|}%float.

(* ------------------------------------------------------------------ *)
(** ** Movement creation ([createMovement], lines 412-494) *)

(** [Date.now()] is an integral number of milliseconds; its decimal text. *)
Definition int_of_float (x : float) : Z :=
  match Prim2SF x with
  | S754_finite sgn m e =>
      let z := if (0 <=? e)%Z then Z.shiftl (Zpos m) e else Z.shiftr (Zpos m) (- e) in
      if sgn then (- z)%Z else z
  | _ => 0%Z
  end.

(** [generateMovementId(signature, whale)] *)
Definition generateMovementId (signature whale : string) (now : float) : string :=
  substring 0 8 signature ++ "-" ++ substring 0 8 whale ++ "-" ++
  pretty (int_of_float now).

Definition isSignificantMovement (usdValue : float) (config : WhaleConfig) : bool :=
  (minMovementUsd config <=? usdValue)%float.

(** [h?.mint === tokenMint], returning the holder when it matches. *)
Definition holder_with_mint (h : option TokenHolder) (tokenMint : string)
  : option TokenHolder :=
  match h with
  | Some t => if String.eqb (th_mint t) tokenMint then Some t else None
  | None => None
  end.

(** The branch on the transaction type: [Some (amount, direction)], or
    [None] for the early [return null]. *)
Definition movement_leg (tx : ParsedTransaction) (tokenMint : string)
  : option (float * Direction) :=
  match ptx_type tx with
  | Swap =>
      match holder_with_mint (ptx_tokenOut tx) tokenMint with
      | Some o => Some (th_uiAmount o, In)
      | None =>
          match holder_with_mint (ptx_tokenIn tx) tokenMint with
          | Some i => Some (th_uiAmount i, Out)
          | None => None
          end
      end
  | Transfer =>
      match holder_with_mint (ptx_transfer tx) tokenMint with
      | Some t => Some (th_uiAmount t, Out)
      | None => None
      end
  | Stake | Unstake =>
      let direction := match ptx_type tx with Stake => Out | _ => In end in
      match ptx_tokenIn tx with
      | Some i => Some (th_uiAmount i, direction)
      | None => Some (0%float, direction)
      end
  | _ => None
  end.

Definition createMovement (tx : ParsedTransaction) (whale tokenMint : string)
  (tokenPrice : float) (config : WhaleConfig) (now : float) : option WhaleMovement :=
  match movement_leg tx tokenMint with
  | None => None
  | Some (amount, direction) =>
      let usdValue := (amount * tokenPrice)%float in
      if negb (isSignificantMovement usdValue config) then None
      else Some {|
        mv_id := generateMovementId (ptx_signature tx) whale now;
        mv_timestamp := (ptx_timestamp tx * 1000)%float;
        mv_whale := whale;
        mv_type := ptx_type tx;
        mv_tokenMint := tokenMint;
        mv_amount := amount;
        mv_usdValue := usdValue;
        mv_signature := ptx_signature tx;
        mv_direction := direction;
      |}
  end.


(* ------------------------------------------------------------------ *)
(** ** The movement store ([recordMovement], [pruneMovements], queries) *)

Definition MAX_MOVEMENTS_PER_TOKEN : nat := 1000.

Definition MAX_MOVEMENT_AGE_MS : float := (7 * 24 * 60 * 60 * 1000)%float.

(** The two module-level stores: [movementsByToken] (a [Map]) and
    [recentMovements] (an array, newest first). *)
Record MovementStore := {
  movementsByToken : gmap string (list WhaleMovement);
  recentMovements : list WhaleMovement;
}.

Definition empty_store : MovementStore := {|
  movementsByToken := ∅;
  recentMovements := [];
|}.

(** [xs[xs.length - 1].timestamp < cutoff], under a [length > 0] guard. *)
Definition last_older (cutoff : float) (xs : list WhaleMovement) : bool :=
  match last xs with
  | Some m => (mv_timestamp m <? cutoff)%float
  | None => false
  end.

(** [while (cond(xs)) xs.pop();] -- every iteration removes the last
    element, so [length xs] iterations suffice. *)
Fixpoint pop_while_fuel (cond : list WhaleMovement -> bool) (fuel : nat)
  (xs : list WhaleMovement) : list WhaleMovement :=
  match fuel with
  | O => xs
  | S fuel' => if cond xs then pop_while_fuel cond fuel' (removelast xs) else xs
  end.

Definition pop_while (cond : list WhaleMovement -> bool) (xs : list WhaleMovement)
  : list WhaleMovement :=
  pop_while_fuel cond (length xs) xs.

(** Loop condition of the global list (lines 700-704). *)
Definition global_prune_cond (cutoff : float) (xs : list WhaleMovement) : bool :=
  (0 <? length xs)%nat &&
  ((MAX_MOVEMENTS_PER_TOKEN * 10 <? length xs)%nat || last_older cutoff xs).

(** Loop condition of a per-token list (lines 710-713). *)
Definition token_prune_cond (cutoff : float) (xs : list WhaleMovement) : bool :=
  (MAX_MOVEMENTS_PER_TOKEN <? length xs)%nat ||
  ((0 <? length xs)%nat && last_older cutoff xs).

(** A per-token list after its loop; [None] when it became empty and the
    token is deleted from the map. *)
Definition prune_token_list (cutoff : float) (xs : list WhaleMovement)
  : option (list WhaleMovement) :=
  match pop_while (token_prune_cond cutoff) xs with
  | [] => None
  | ys => Some ys
  end.

Definition pruneMovements (now : float) (st : MovementStore) : MovementStore :=
  let cutoff := (now - MAX_MOVEMENT_AGE_MS)%float in
  {| recentMovements := pop_while (global_prune_cond cutoff) (recentMovements st);
     movementsByToken := omap (prune_token_list cutoff) (movementsByToken st) |}.

(** [recordMovement(movement)]: [unshift] onto both lists, then prune. *)
Definition recordMovement (now : float) (movement : WhaleMovement)
  (st : MovementStore) : MovementStore :=
  let tokenMovements := default [] (movementsByToken st !! mv_tokenMint movement) in
  pruneMovements now {|
    recentMovements := movement :: recentMovements st;
    movementsByToken :=
      <[mv_tokenMint movement := movement :: tokenMovements]> (movementsByToken st) |}.

(** [processTransactions]: records each created movement in input order;
    the clock reading of each iteration is [now]. *)
Fixpoint processTransactions (now : float) (transactions : list ParsedTransaction)
  (whale tokenMint : string) (tokenPrice : float) (config : WhaleConfig)
  (st : MovementStore) : list WhaleMovement * MovementStore :=
  match transactions with
  | [] => ([], st)
  | tx :: rest =>
      match createMovement tx whale tokenMint tokenPrice config now with
      | Some m =>
          let '(recorded, st') :=
            processTransactions now rest whale tokenMint tokenPrice config
              (recordMovement now m st) in
          (m :: recorded, st')
      | None => processTransactions now rest whale tokenMint tokenPrice config st
      end
  end.

(** [getMovementsByToken(tokenMint, limit = 50)] *)
Definition getMovementsByToken (st : MovementStore) (tokenMint : string)
  (limit : nat) : list WhaleMovement :=
  take limit (default [] (movementsByToken st !! tokenMint)).

(** [getMovementsByWhale(whaleAddress, limit = 50)] *)
Definition getMovementsByWhale (st : MovementStore) (whaleAddress : string)
  (limit : nat) : list WhaleMovement :=
  take limit (filter (fun m => mv_whale m = whaleAddress) (recentMovements st)).

(** [getAllRecentMovements(limit = 100)] *)
Definition getAllRecentMovements (st : MovementStore) (limit : nat)
  : list WhaleMovement :=
  take limit (recentMovements st).

(** The cases of [createMovement] as the spec lists them. *)
Definition has_mint (h : option TokenHolder) (tokenMint : string) : Prop :=
  match h with
  | Some t => th_mint t = tokenMint
  | None => False
  end.

#[global] Instance has_mint_dec h tokenMint : Decision (has_mint h tokenMint).
Proof. destruct h as [t|]; simpl; [apply _ | right; auto]. Defined.

Definition ui_of (h : option TokenHolder) : float :=
  match h with
  | Some t => th_uiAmount t
  | None => 0%float
  end.

(** Related to the tracked token: a swap with either leg in it, a transfer
    of it, any stake or unstake; nothing else. *)
Definition movement_related (tx : ParsedTransaction) (tokenMint : string) : Prop :=
  match ptx_type tx with
  | Swap => has_mint (ptx_tokenOut tx) tokenMint \/ has_mint (ptx_tokenIn tx) tokenMint
  | Transfer => has_mint (ptx_transfer tx) tokenMint
  | Stake | Unstake => True
  | _ => False
  end.

#[global] Instance movement_related_dec tx tokenMint :
  Decision (movement_related tx tokenMint).
Proof. unfold movement_related. destruct (ptx_type tx); apply _. Defined.

Definition spec_amount (tx : ParsedTransaction) (tokenMint : string) : float :=
  match ptx_type tx with
  | Swap =>
      if bool_decide (has_mint (ptx_tokenOut tx) tokenMint) then ui_of (ptx_tokenOut tx)
      else ui_of (ptx_tokenIn tx)
  | Transfer => ui_of (ptx_transfer tx)
  | Stake | Unstake => ui_of (ptx_tokenIn tx)
  | _ => 0%float
  end.

Definition spec_direction (tx : ParsedTransaction) (tokenMint : string) : Direction :=
  match ptx_type tx with
  | Swap => if bool_decide (has_mint (ptx_tokenOut tx) tokenMint) then In else Out
  | Unstake => In
  | _ => Out
  end.

(* ------------------------------------------------------------------ *)
(** ** Whale registry ([discoverWhales] .. [getWhaleActivitySummary]) *)

Inductive Behavior := BUnknown | Accumulating | Distributing | Holding.

(** The profile objects built by [discoverWhales] (lines 845-854). *)
Record WhaleProfile := {
  wp_address : string;
  wp_tokenMint : string;
  wp_holdings : float;
  wp_usdValue : float;
  wp_firstSeen : float;
  wp_lastActivity : float;
  wp_behavior : Behavior;
  wp_recentTxCount : float;
}.

(** [Partial<WhaleProfile>]: [Some v] for a property that is present. *)
Record WhaleProfileUpdate := {
  pu_address : option string;
  pu_tokenMint : option string;
  pu_holdings : option float;
  pu_usdValue : option float;
  pu_firstSeen : option float;
  pu_lastActivity : option float;
  pu_behavior : option Behavior;
  pu_recentTxCount : option float;
}.

(** [whaleRegistry]: token mint -> wallet -> profile. *)
Abbreviation WhaleRegistry := (gmap string (gmap string WhaleProfile)).

(** The [TokenHolder] records returned by [getLargestTokenHolders]. *)
Record LargestHolder := {
  lh_address : string;
  lh_amount : float;
  lh_decimals : float;
  lh_uiAmount : float;
}.

Definition isWhale (usdValue : float) (config : WhaleConfig) : bool :=
  (minWhaleHoldingsUsd config <=? usdValue)%float.

Definition fresh_profile (tokenMint : string) (now usdValue : float)
  (holder : LargestHolder) : WhaleProfile := {|
  wp_address := lh_address holder;
  wp_tokenMint := tokenMint;
  wp_holdings := lh_uiAmount holder;
  wp_usdValue := usdValue;
  wp_firstSeen := now;
  wp_lastActivity := now;
  wp_behavior := BUnknown;
  wp_recentTxCount := 0%float;
|}.

(** [whaleRegistry.get(tokenMint)!.set(address, profile)], creating the
    inner map when the token is new. *)
Definition registry_set (reg : WhaleRegistry) (tokenMint address : string)
  (profile : WhaleProfile) : WhaleRegistry :=
  <[tokenMint := <[address := profile]> (default ∅ (reg !! tokenMint))]> reg.

(** The loop of [discoverWhales] over the holders, after the provider call. *)
Fixpoint discover_loop (tokenMint : string) (tokenPrice : float) (config : WhaleConfig)
  (now : float) (holders : list LargestHolder) (reg : WhaleRegistry)
  : list WhaleProfile * WhaleRegistry :=
  match holders with
  | [] => ([], reg)
  | holder :: rest =>
      let usdValue := (lh_uiAmount holder * tokenPrice)%float in
      if isWhale usdValue config then
        let profile := fresh_profile tokenMint now usdValue holder in
        let '(whales, reg') :=
          discover_loop tokenMint tokenPrice config now rest
            (registry_set reg tokenMint (lh_address holder) profile) in
        (profile :: whales, reg')
      else discover_loop tokenMint tokenPrice config now rest reg
  end.

(** [discoverWhales(tokenMint, tokenPrice, config)] with the holders the
    provider returned and the clock reading taken after the call. *)
Definition discoverWhales (holders : list LargestHolder) (tokenMint : string)
  (tokenPrice : float) (config : WhaleConfig) (now : float) (reg : WhaleRegistry)
  : list WhaleProfile * WhaleRegistry :=
  discover_loop tokenMint tokenPrice config now holders reg.

Definition getTrackedWhales (reg : WhaleRegistry) (tokenMint : string)
  : list WhaleProfile :=
  match reg !! tokenMint with
  | Some inner => (map_to_list inner).*2
  | None => []
  end.

Definition getWhaleProfile (reg : WhaleRegistry) (tokenMint walletAddress : string)
  : option WhaleProfile :=
  reg !! tokenMint ≫= lookup walletAddress.

(** [Object.assign(profile, update, { lastActivity: Date.now() })] *)
Definition assign_update (p : WhaleProfile) (u : WhaleProfileUpdate) (now : float)
  : WhaleProfile := {|
  wp_address := default (wp_address p) (pu_address u);
  wp_tokenMint := default (wp_tokenMint p) (pu_tokenMint u);
  wp_holdings := default (wp_holdings p) (pu_holdings u);
  wp_usdValue := default (wp_usdValue p) (pu_usdValue u);
  wp_firstSeen := default (wp_firstSeen p) (pu_firstSeen u);
  wp_lastActivity := now;
  wp_behavior := default (wp_behavior p) (pu_behavior u);
  wp_recentTxCount := default (wp_recentTxCount p) (pu_recentTxCount u);
|}.

Definition updateWhaleProfile (reg : WhaleRegistry) (tokenMint walletAddress : string)
  (update : WhaleProfileUpdate) (now : float) : WhaleRegistry :=
  match reg !! tokenMint with
  | None => reg
  | Some registry =>
      match registry !! walletAddress with
      | None => reg
      | Some profile =>
          <[tokenMint := <[walletAddress := assign_update profile update now]> registry]> reg
      end
  end.

Record ActivitySummary := {
  totalWhales : nat;
  accumulating : nat;
  distributing : nat;
  holding : nat;
  totalHoldingsUsd : float;
}.

Definition behavior_is (b : Behavior) (w : WhaleProfile) : bool :=
  match wp_behavior w, b with
  | BUnknown, BUnknown | Accumulating, Accumulating
  | Distributing, Distributing | Holding, Holding => true
  | _, _ => false
  end.

Definition getWhaleActivitySummary (reg : WhaleRegistry) (tokenMint : string)
  : ActivitySummary :=
  let whales := getTrackedWhales reg tokenMint in
  {| totalWhales := length whales;
     accumulating := length (List.filter (behavior_is Accumulating) whales);
     distributing := length (List.filter (behavior_is Distributing) whales);
     holding := length (List.filter (behavior_is Holding) whales);
     totalHoldingsUsd := fold_left (fun sum w => (sum + wp_usdValue w)%float) whales 0%float |}.

(* ------------------------------------------------------------------ *)
(** ** Pattern detector ([analyzeWhaleBehavior], [detect*Pattern]) *)

(** [h?.mint === tokenMint] *)
Definition mint_is (h : option TokenHolder) (tokenMint : string) : bool :=
  match h with
  | Some t => String.eqb (th_mint t) tokenMint
  | None => false
  end.

Definition is_swap (tx : ParsedTransaction) : bool :=
  match ptx_type tx with Swap => true | _ => false end.

Definition is_transfer (tx : ParsedTransaction) : bool :=
  match ptx_type tx with Transfer => true | _ => false end.

(** The [for] loop of lines 948-965 on [(buyCount, sellCount)]; the volume
    accumulators are never read and are left out. *)
Definition count_step (tokenMint : string) (acc : nat * nat) (tx : ParsedTransaction)
  : nat * nat :=
  let '(buyCount, sellCount) := acc in
  if is_swap tx then
    ((if mint_is (ptx_tokenOut tx) tokenMint then S buyCount else buyCount),
     (if mint_is (ptx_tokenIn tx) tokenMint then S sellCount else sellCount))
  else if is_transfer tx && mint_is (ptx_transfer tx) tokenMint then
    (S buyCount, sellCount)
  else (buyCount, sellCount).

Definition analyzeWhaleBehavior (walletAddress tokenMint : string)
  (transactions : list ParsedTransaction) (config : WhaleConfig) (now : float)
  : Behavior :=
  let windowStart := (now - patternWindowMs config)%float in
  let recentTxs :=
    List.filter (fun tx => (windowStart <=? ptx_timestamp tx * 1000)%float) transactions in
  if (num (length recentTxs) <? minPatternTxCount config)%float then Holding
  else
    let '(buyCount, sellCount) := fold_left (count_step tokenMint) recentTxs (0, 0)%nat in
    let totalTxs := (buyCount + sellCount)%nat in
    if (num totalTxs <? minPatternTxCount config)%float then Holding
    else
      let buyRatio := (num buyCount / num totalTxs)%float in
      if (0.7 <=? buyRatio)%float then Accumulating
      else if (buyRatio <=? 0.3)%float then Distributing
      else Holding.

Inductive PatternType := Accumulation | Distribution.

Record Pattern := {
  pt_whale : string;
  pt_tokenMint : string;
  pt_type : PatternType;
  pt_txCount : float;
  pt_totalAmount : float;
  pt_totalUsdValue : float;
  pt_startTime : float;
  pt_endTime : float;
  pt_confidence : float;
}.

(** The common body of [detectAccumulationPattern] (leg [tokenOut]) and
    [detectDistributionPattern] (leg [tokenIn]), lines 1002-1052 and
    1073-1120: the two functions differ only in the leg they read. *)
Definition detect_pattern (leg : ParsedTransaction -> option TokenHolder)
  (kind : PatternType) (walletAddress tokenMint : string)
  (transactions : list ParsedTransaction) (tokenPrice : float) (config : WhaleConfig)
  (now : float) : option Pattern :=
  let windowStart := (now - patternWindowMs config)%float in
  let txs := List.filter (fun tx =>
      if (ptx_timestamp tx * 1000 <? windowStart)%float then false
      else if negb (is_swap tx) then false
      else mint_is (leg tx) tokenMint) transactions in
  let n := num (length txs) in
  if (n <? minPatternTxCount config)%float then None
  else
    let size tx := or_zero (ui_of (leg tx)) in
    let totalAmount := fold_left (fun sum tx => (sum + size tx)%float) txs 0%float in
    let totalUsdValue := (totalAmount * tokenPrice)%float in
    if (totalUsdValue <? minMovementUsd config * minPatternTxCount config)%float then None
    else
      let avgSize := (totalAmount / n)%float in
      let variance := (fold_left (fun sum tx =>
          let diff := (size tx - avgSize)%float in (sum + diff * diff)%float)
          txs 0%float / n)%float in
      let stdDev := PrimFloat.sqrt variance in
      let cv := (stdDev / avgSize)%float in
      let confidence := js_max 0 (js_min 1 (1 - cv)) in
      let timestamps := map ptx_timestamp txs in
      Some {|
        pt_whale := walletAddress;
        pt_tokenMint := tokenMint;
        pt_type := kind;
        pt_txCount := n;
        pt_totalAmount := totalAmount;
        pt_totalUsdValue := totalUsdValue;
        pt_startTime := (js_min_list timestamps * 1000)%float;
        pt_endTime := (js_max_list timestamps * 1000)%float;
        pt_confidence := confidence;
      |}.

Definition detectAccumulationPattern := detect_pattern ptx_tokenOut Accumulation.

Definition detectDistributionPattern := detect_pattern ptx_tokenIn Distribution.

(** [analyzeWhaleBehavior] as the spec words it: buys are swaps out into
    the token plus transfers of it, sells are swaps in from it, each counted
    over the transactions of the trailing window. *)
Definition buy_signal (tokenMint : string) (tx : ParsedTransaction) : bool :=
  (is_swap tx && mint_is (ptx_tokenOut tx) tokenMint)
  || (is_transfer tx && mint_is (ptx_transfer tx) tokenMint).

Definition sell_signal (tokenMint : string) (tx : ParsedTransaction) : bool :=
  is_swap tx && mint_is (ptx_tokenIn tx) tokenMint.

Definition in_window (config : WhaleConfig) (now : float) (tx : ParsedTransaction) : bool :=
  (now - patternWindowMs config <=? ptx_timestamp tx * 1000)%float.

Definition behavior_spec (tokenMint : string) (transactions : list ParsedTransaction)
  (config : WhaleConfig) (now : float) : Behavior :=
  let recent := List.filter (in_window config now) transactions in
  let buys := length (List.filter (buy_signal tokenMint) recent) in
  let sells := length (List.filter (sell_signal tokenMint) recent) in
  if (num (length recent) <? minPatternTxCount config)%float then Holding
  else if (num (buys + sells) <? minPatternTxCount config)%float then Holding
  else
    let ratio := (num buys / num (buys + sells))%float in
    if (0.7 <=? ratio)%float then Accumulating
    else if (ratio <=? 0.3)%float then Distributing
    else Holding.

(* ------------------------------------------------------------------ *)
(** ** Parsing ([categorizeTransfers], [parseTransactionData]) *)

Definition LAMPORTS_PER_SOL : float := 1000000000%float.

Definition lamportsToSol (lamports : float) : float := (lamports / LAMPORTS_PER_SOL)%float.

(** [categorizeTransfers(transfers, wallet)]: the loop pushes onto two arrays. *)
Definition categorizeTransfers (transfers : list HeliusTokenTransfer) (wallet : string)
  : list HeliusTokenTransfer * list HeliusTokenTransfer :=
  fold_left (fun acc transfer =>
    let '(incoming, outgoing) := acc in
    if String.eqb (tt_toUserAccount transfer) wallet then ((incoming ++ [transfer])%list, outgoing)
    else if String.eqb (tt_fromUserAccount transfer) wallet
    then (incoming, (outgoing ++ [transfer])%list)
    else (incoming, outgoing)) transfers ([], []).

(** The [{ mint, amount, decimals: 0, uiAmount }] objects built from a transfer. *)
Definition holder_of_transfer (t : HeliusTokenTransfer) : TokenHolder := {|
  th_mint := tt_mint t; th_amount := tt_tokenAmount t;
  th_decimals := 0; th_uiAmount := tt_tokenAmount t |}%float.

(** [tx.source || 'unknown']: the empty string is falsy. *)
Definition source_or_unknown (source : option string) : string :=
  match source with
  | Some (String c s) => String c s
  | _ => "unknown"
  end.

(** [incoming[0] || outgoing[0]] *)
Definition first_transfer (incoming outgoing : list HeliusTokenTransfer)
  : option HeliusTokenTransfer :=
  match head incoming with
  | Some t => Some t
  | None => head outgoing
  end.

Definition parseTransactionData (tx : HeliusEnhancedTransaction) (trackedWallet : string)
  : ParsedTransaction :=
  let txType := classifyTransactionType tx in
  let '(tokenIn, tokenOut, transfer) :=
    match htx_tokenTransfers tx with
    | Some ((_ :: _) as transfers) =>
        let '(incoming, outgoing) := categorizeTransfers transfers trackedWallet in
        match txType, incoming, outgoing with
        | Swap, tokenOut :: _, tokenIn :: _ =>
            (Some (holder_of_transfer tokenIn), Some (holder_of_transfer tokenOut), None)
        | Transfer, _, _ =>
            (None, None, option_map holder_of_transfer (first_transfer incoming outgoing))
        | _, _, _ => (None, None, None)
        end
    | _ => (None, None, None)
    end in
  {| ptx_signature := htx_signature tx;
     ptx_timestamp := htx_timestamp tx;
     ptx_type := txType;
     ptx_source := source_or_unknown (htx_source tx);
     ptx_fee := lamportsToSol (htx_fee tx);
     ptx_success := true;
     ptx_tokenIn := tokenIn;
     ptx_tokenOut := tokenOut;
     ptx_transfer := transfer |}.

(* ------------------------------------------------------------------ *)
(** ** More of the movement store ([getMovementsByType] .. [getNetFlow]) *)

Definition type_is (type : TransactionType) (m : WhaleMovement) : bool :=
  match mv_type m, type with
  | Swap, Swap | Transfer, Transfer | Stake, Stake | Unstake, Unstake
  | Mint, Mint | Burn, Burn | Unknown, Unknown => true
  | _, _ => false
  end.

(** [getMovementsByType(type, limit = 50)] *)
Definition getMovementsByType (st : MovementStore) (type : TransactionType) (limit : nat)
  : list WhaleMovement :=
  take limit (List.filter (type_is type) (recentMovements st)).

(** [getLargeMovements(minUsd, limit = 50)] *)
Definition getLargeMovements (st : MovementStore) (minUsd : float) (limit : nat)
  : list WhaleMovement :=
  take limit (List.filter (fun m => (minUsd <=? mv_usdValue m)%float) (recentMovements st)).

(** [clearMovements()] *)
Definition clearMovements (st : MovementStore) : MovementStore := empty_store.

Record MovementStats := {
  totalMovements : nat;
  totalVolumeUsd : float;
  inflows : nat;
  outflows : nat;
  inflowVolumeUsd : float;
  outflowVolumeUsd : float;
  largestMovement : option WhaleMovement;
  averageMovementUsd : float;
  swaps : nat;
  transfers : nat;
  stakes : nat;
}.

(** [(movementsByToken.get(tokenMint) || []).filter((m) => m.timestamp >= cutoff)] *)
Definition movements_since (st : MovementStore) (tokenMint : string) (cutoff : float)
  : list WhaleMovement :=
  List.filter (fun m => (cutoff <=? mv_timestamp m)%float)
    (default [] (movementsByToken st !! tokenMint)).

Definition is_in (m : WhaleMovement) : bool :=
  match mv_direction m with In => true | Out => false end.

Definition is_out (m : WhaleMovement) : bool :=
  match mv_direction m with Out => true | In => false end.

Definition sum_usd (ms : list WhaleMovement) : float :=
  fold_left (fun sum m => (sum + mv_usdValue m)%float) ms 0%float.

(** The reducer of [largestMovement]. *)
Definition pick_largest (largest : option WhaleMovement) (m : WhaleMovement)
  : option WhaleMovement :=
  match largest with
  | None => Some m
  | Some l => if (mv_usdValue l <? mv_usdValue m)%float then Some m else Some l
  end.

(** [getMovementStats(tokenMint, windowMs)] with the clock reading [now]. *)
Definition getMovementStats (st : MovementStore) (tokenMint : string) (windowMs now : float)
  : MovementStats :=
  let cutoff := (now - windowMs)%float in
  let movements := movements_since st tokenMint cutoff in
  let inflows := List.filter is_in movements in
  let outflows := List.filter is_out movements in
  let inflowVolumeUsd := sum_usd inflows in
  let outflowVolumeUsd := sum_usd outflows in
  let totalVolumeUsd := (inflowVolumeUsd + outflowVolumeUsd)%float in
  {| totalMovements := length movements;
     totalVolumeUsd := totalVolumeUsd;
     inflows := length inflows;
     outflows := length outflows;
     inflowVolumeUsd := inflowVolumeUsd;
     outflowVolumeUsd := outflowVolumeUsd;
     largestMovement := fold_left pick_largest movements None;
     averageMovementUsd :=
       if (0 <? length movements)%nat then (totalVolumeUsd / num (length movements))%float
       else 0%float;
     swaps := length (List.filter (type_is Swap) movements);
     transfers := length (List.filter (type_is Transfer) movements);
     stakes := length (List.filter (fun m => type_is Stake m || type_is Unstake m) movements) |}.

Inductive Sentiment := Bullish | Bearish | Neutral.

Record NetFlow := {
  netFlowUsd : float;
  netFlowAmount : float;
  sentiment : Sentiment;
}.

(** [getNetFlow(tokenMint, windowMs)]: [now_stats] is the clock reading
    inside [getMovementStats], [now] the one of [getNetFlow] itself. *)
Definition getNetFlow (st : MovementStore) (tokenMint : string) (windowMs now_stats now : float)
  : NetFlow :=
  let stats := getMovementStats st tokenMint windowMs now_stats in
  let netFlowUsd := (inflowVolumeUsd stats - outflowVolumeUsd stats)%float in
  let cutoff := (now - windowMs)%float in
  let movements := movements_since st tokenMint cutoff in
  let netFlowAmount := fold_left (fun sum m =>
      (sum + (if is_in m then mv_amount m else - mv_amount m))%float) movements 0%float in
  let sentiment :=
    if (10000 <? netFlowUsd)%float then Bullish
    else if (netFlowUsd <? -10000)%float then Bearish
    else Neutral in
  {| netFlowUsd := netFlowUsd; netFlowAmount := netFlowAmount; sentiment := sentiment |}.

(* ------------------------------------------------------------------ *)
(** ** Whale service state ([analyzeWhale], [clearWhaleRegistry]) *)

(** [whaleRegistry] and [transactionHistory]. *)
Record WhaleState := {
  ws_registry : WhaleRegistry;
  ws_history : gmap string (list ParsedTransaction);
}.

Record WhaleAnalysis := {
  wa_behavior : Behavior;
  wa_patterns : list Pattern;
}.

(** [if (p) patterns.push(p)] *)
Definition push_some (p : option Pattern) (patterns : list Pattern) : list Pattern :=
  match p with
  | Some x => (patterns ++ [x])%list
  | None => patterns
  end.

(** [analyzeWhale(walletAddress, tokenMint, tokenPrice, config)] after
    [getRecentTransactions] returned [rawTxs]; [now_b], [now_a], [now_d] and
    [now_u] are the clock readings of [analyzeWhaleBehavior], the two
    detectors and [updateWhaleProfile]. *)
Definition analyzeWhale (rawTxs : list HeliusEnhancedTransaction)
  (walletAddress tokenMint : string) (tokenPrice : float) (config : WhaleConfig)
  (now_b now_a now_d now_u : float) (st : WhaleState) : WhaleAnalysis * WhaleState :=
  let transactions := map (fun tx => parseTransactionData tx walletAddress) rawTxs in
  let history := <[walletAddress := transactions]> (ws_history st) in
  let behavior := analyzeWhaleBehavior walletAddress tokenMint transactions config now_b in
  let accumulation :=
    detectAccumulationPattern walletAddress tokenMint transactions tokenPrice config now_a in
  let distribution :=
    detectDistributionPattern walletAddress tokenMint transactions tokenPrice config now_d in
  let patterns := push_some distribution (push_some accumulation []) in
  let registry :=
    updateWhaleProfile (ws_registry st) tokenMint walletAddress
      {| pu_address := None; pu_tokenMint := None; pu_holdings := None;
         pu_usdValue := None; pu_firstSeen := None; pu_lastActivity := None;
         pu_behavior := Some behavior;
         pu_recentTxCount := Some (num (length transactions)) |} now_u in
  ({| wa_behavior := behavior; wa_patterns := patterns |},
   {| ws_registry := registry; ws_history := history |}).

(** [clearWhaleRegistry()] *)
Definition clearWhaleRegistry (st : WhaleState) : WhaleState :=
  {| ws_registry := ∅; ws_history := ∅ |}.

(* ------------------------------------------------------------------ *)
(** ** Address utilities ([formatAddress], [isValidAddress]) *)

(** [s.slice(-k)] for a whole number [k]: [-0] is [0], so [slice(-0)] is
    the whole string; a start before 0 is 0. *)
Definition slice_from_end (s : string) (k : nat) : string :=
  if (k =? 0)%nat then s else substring (String.length s - k) k s.

(** [formatAddress(address, chars = 4)] for a whole number [chars]. *)
Definition formatAddress (address : string) (chars : nat) : string :=
  if String.eqb address "" || (String.length address <=? chars * 2 + 3)%nat then address
  else substring 0 chars address ++ "..." ++ slice_from_end address chars.

Definition in_range (lo hi : ascii) (c : ascii) : bool :=
  (nat_of_ascii lo <=? nat_of_ascii c)%nat && (nat_of_ascii c <=? nat_of_ascii hi)%nat.

(** The character class [[1-9A-HJ-NP-Za-km-z]]. *)
Definition base58_char (c : ascii) : bool :=
  in_range "1" "9" c || in_range "A" "H" c || in_range "J" "N" c ||
  in_range "P" "Z" c || in_range "a" "k" c || in_range "m" "z" c.

(** [/^[1-9A-HJ-NP-Za-km-z]{32,44}$/.test(address)] *)
Definition isValidAddress (address : string) : bool :=
  (32 <=? String.length address)%nat && (String.length address <=? 44)%nat &&
  forallb base58_char (list_ascii_of_string address).

(* ------------------------------------------------------------------ *)
(** ** Lemmas on the movement store *)



(** *** The pruning loops *)

Lemma removelast_prefix (xs : list WhaleMovement) : removelast xs `prefix_of` xs.
Proof.
  destruct xs as [|x xs]; [reflexivity|].
  rewrite (app_removelast_last (l := x :: xs) x) at 2 by discriminate.
  apply prefix_app_r. reflexivity.
Qed.

Lemma length_removelast_cons (x : WhaleMovement) xs :
  length (removelast (x :: xs)) = length xs.
Proof.
  revert x. induction xs as [|y ys IH]; intros x; [reflexivity|].
  change (S (length (removelast (y :: ys))) = S (length ys)). now rewrite IH.
Qed.

Lemma prefix_removelast (p xs : list WhaleMovement) :
  p `prefix_of` xs -> p <> xs -> p `prefix_of` removelast xs.
Proof.
  intros [k ->] Hne. destruct k as [|y k].
  - rewrite app_nil_r in Hne. congruence.
  - rewrite removelast_app by discriminate. apply prefix_app_r. reflexivity.
Qed.

Lemma pop_while_fuel_prefix cond fuel (xs : list WhaleMovement) :
  pop_while_fuel cond fuel xs `prefix_of` xs.
Proof.
  revert xs. induction fuel as [|fuel IH]; intros xs; simpl; [reflexivity|].
  destruct (cond xs); [|reflexivity].
  etransitivity; [apply IH | apply removelast_prefix].
Qed.

(** Popping never removes a prefix on which the loop condition is false. *)
Lemma pop_while_fuel_keeps cond fuel (xs p : list WhaleMovement) :
  p `prefix_of` xs -> cond p = false -> p `prefix_of` pop_while_fuel cond fuel xs.
Proof.
  revert xs. induction fuel as [|fuel IH]; intros xs Hp Hc; simpl; [done|].
  destruct (cond xs) eqn:E; [|done].
  apply IH; [|done]. apply prefix_removelast; [done|]. intros ->. congruence.
Qed.

(** With enough fuel the loop runs until its condition is false. *)
Lemma pop_while_fuel_stops cond fuel (xs : list WhaleMovement) :
  cond [] = false -> (length xs <= fuel)%nat ->
  cond (pop_while_fuel cond fuel xs) = false.
Proof.
  revert xs. induction fuel as [|fuel IH]; intros xs Hnil Hlen; simpl.
  - destruct xs; [done | simpl in Hlen; lia].
  - destruct (cond xs) eqn:E; [|done]. apply IH; [done|].
    destruct xs as [|x xs]; [congruence|].
    rewrite length_removelast_cons. simpl in Hlen. lia.
Qed.

Lemma pop_while_stops cond (xs : list WhaleMovement) :
  cond [] = false -> cond (pop_while cond xs) = false.
Proof. intros H. apply pop_while_fuel_stops; [done | lia]. Qed.

Lemma pop_while_keeps cond (xs p : list WhaleMovement) :
  p `prefix_of` xs -> cond p = false -> p `prefix_of` pop_while cond xs.
Proof. apply pop_while_fuel_keeps. Qed.

Lemma token_prune_cond_false cutoff (xs : list WhaleMovement) :
  token_prune_cond cutoff xs = false <->
  (length xs <= MAX_MOVEMENTS_PER_TOKEN)%nat /\ (xs = [] \/ last_older cutoff xs = false).
Proof.
  unfold token_prune_cond. rewrite orb_false_iff, Nat.ltb_ge, andb_false_iff, Nat.ltb_ge.
  destruct xs as [|x xs]; simpl; intuition (try lia; try discriminate).
Qed.

Lemma global_prune_cond_false cutoff (xs : list WhaleMovement) :
  global_prune_cond cutoff xs = false <->
  xs = [] \/ ((length xs <= MAX_MOVEMENTS_PER_TOKEN * 10)%nat /\ last_older cutoff xs = false).
Proof.
  unfold global_prune_cond. rewrite andb_false_iff, orb_false_iff, !Nat.ltb_ge.
  destruct xs as [|x xs]; simpl; intuition (try lia; try discriminate).
Qed.

Lemma lookup_pruneMovements now st tk :
  movementsByToken (pruneMovements now st) !! tk =
  movementsByToken st !! tk ≫= prune_token_list (now - MAX_MOVEMENT_AGE_MS)%float.
Proof. unfold pruneMovements. simpl. apply lookup_omap. Qed.

Lemma prune_token_list_Some cutoff xs ys :
  prune_token_list cutoff xs = Some ys ->
  ys = pop_while (token_prune_cond cutoff) xs /\ ys <> [].
Proof.
  unfold prune_token_list. destruct (pop_while _ xs) eqn:E; [discriminate|].
  intros [= <-]. split; [done | discriminate].
Qed.

(** A single movement not older than the cutoff is never popped. *)
Lemma fresh_singleton_token cutoff m :
  (mv_timestamp m <? cutoff)%float = false -> token_prune_cond cutoff [m] = false.
Proof. intros H. unfold token_prune_cond, last_older. simpl. now rewrite H. Qed.

Lemma fresh_singleton_global cutoff m :
  (mv_timestamp m <? cutoff)%float = false -> global_prune_cond cutoff [m] = false.
Proof. intros H. unfold global_prune_cond, last_older. simpl. now rewrite H. Qed.

(** *** The store after a prune pass *)

Lemma pruneMovements_tails now st :
  let st' := pruneMovements now st in
  let cutoff := (now - MAX_MOVEMENT_AGE_MS)%float in
  (recentMovements st' = [] \/
   ((length (recentMovements st') <= MAX_MOVEMENTS_PER_TOKEN * 10)%nat /\
    last_older cutoff (recentMovements st') = false)) /\
  (forall tk xs, movementsByToken st' !! tk = Some xs ->
     xs <> [] /\ (length xs <= MAX_MOVEMENTS_PER_TOKEN)%nat /\
     last_older cutoff xs = false).
Proof.
  cbv zeta. split.
  - apply global_prune_cond_false. simpl. apply pop_while_stops. reflexivity.
  - intros tk xs. rewrite lookup_pruneMovements.
    destruct (movementsByToken st !! tk) as [ys|]; simpl; [|discriminate].
    intros [Hxs Hne]%prune_token_list_Some.
    assert (Hc : token_prune_cond (now - MAX_MOVEMENT_AGE_MS)%float xs = false)
      by (rewrite Hxs; apply pop_while_stops; reflexivity).
    apply token_prune_cond_false in Hc as [Hlen [Hnil | Hlast]]; [congruence|].
    auto.
Qed.

Lemma lookup_recordMovement_self now m st :
  movementsByToken (recordMovement now m st) !! mv_tokenMint m =
  prune_token_list (now - MAX_MOVEMENT_AGE_MS)%float
    (m :: default [] (movementsByToken st !! mv_tokenMint m)).
Proof.
  unfold recordMovement. rewrite lookup_pruneMovements. simpl.
  rewrite lookup_insert_eq. reflexivity.
Qed.

Lemma recentMovements_recordMovement now m st :
  recentMovements (recordMovement now m st) =
  pop_while (global_prune_cond (now - MAX_MOVEMENT_AGE_MS)%float)
    (m :: recentMovements st).
Proof. reflexivity. Qed.

(** If a non-empty prefix survives the per-token loop, the token keeps a
    list and that list starts with the prefix. *)
Lemma prune_token_list_keeps cutoff (p xs : list WhaleMovement) :
  p <> [] -> p `prefix_of` xs -> token_prune_cond cutoff p = false ->
  exists ys, prune_token_list cutoff xs = Some ys /\ p `prefix_of` ys /\
    token_prune_cond cutoff ys = false.
Proof.
  intros Hne Hp Hc. unfold prune_token_list.
  pose proof (pop_while_keeps _ xs p Hp Hc) as Hk.
  pose proof (pop_while_stops (token_prune_cond cutoff) xs eq_refl) as Hs.
  destruct (pop_while _ xs) as [|y ys] eqn:E.
  - apply prefix_nil_inv in Hk. congruence.
  - exists (y :: ys). auto.
Qed.

Lemma prefix_singleton_head (m : WhaleMovement) ys :
  [m] `prefix_of` ys -> exists rest, ys = m :: rest.
Proof. intros [k ->]. now exists k. Qed.

(** *** Many insertions for one token *)

(** Successive [recordMovement] calls, each with its own clock reading. *)
Definition record_all (events : list (float * WhaleMovement)) (st : MovementStore)
  : MovementStore :=
  fold_left (fun st e => recordMovement e.1 e.2 st) events st.

Lemma record_all_snoc events e st :
  record_all (events ++ [e]) st = recordMovement e.1 e.2 (record_all events st).
Proof. unfold record_all. now rewrite fold_left_app. Qed.

Lemma elem_of_take_l (x : WhaleMovement) n l : x ∈ take n l -> x ∈ l.
Proof. rewrite <- (take_drop n l) at 2. rewrite elem_of_app. auto. Qed.

Lemma recordMovement_bounded now m st tk xs :
  movementsByToken (recordMovement now m st) !! tk = Some xs ->
  (length xs <= MAX_MOVEMENTS_PER_TOKEN)%nat.
Proof. intros H. apply (proj2 (pruneMovements_tails now _) tk xs H). Qed.

Lemma record_all_newest_prefix tk events st :
  Forall (fun e => mv_tokenMint e.2 = tk) events ->
  (forall e1 e2, e1 ∈ events -> e2 ∈ events ->
     (mv_timestamp e1.2 <? e2.1 - MAX_MOVEMENT_AGE_MS)%float = false) ->
  take MAX_MOVEMENTS_PER_TOKEN (reverse (snd <$> events)) `prefix_of`
    default [] (movementsByToken (record_all events st) !! tk).
Proof.
  induction events as [|e events IH] using rev_ind; intros Htk Hfresh.
  - apply prefix_nil.
  - apply Forall_app in Htk as [Htk He]. inversion He as [|? ? He1 _]; subst tk.
    rewrite record_all_snoc, lookup_recordMovement_self, fmap_app, reverse_app.
    simpl reverse. simpl app.
    assert (IH' := IH Htk (fun e1 e2 H1 H2 =>
      Hfresh e1 e2 (proj2 (elem_of_app _ _ _) (or_introl H1))
        (proj2 (elem_of_app _ _ _) (or_introl H2)))).
    set (R := reverse (snd <$> events)) in *.
    set (cur := default [] (movementsByToken (record_all events st) !! mv_tokenMint e.2)) in *.
    destruct (prune_token_list_keeps (e.1 - MAX_MOVEMENT_AGE_MS)%float
      (take MAX_MOVEMENTS_PER_TOKEN (e.2 :: R)) (e.2 :: cur)) as (ys & -> & Hp & _).
    + discriminate.
    + unfold MAX_MOVEMENTS_PER_TOKEN in *. simpl take. apply prefix_cons.
      etransitivity; [|exact IH'].
      replace (take 999 R) with (take 999 (take 1000 R))
        by (rewrite take_take; reflexivity).
      apply prefix_take.
    + apply token_prune_cond_false. split.
      * rewrite length_take. lia.
      * right. unfold last_older. destruct (last _) as [z|] eqn:Hz; [|reflexivity].
        apply last_Some_elem_of, elem_of_take_l in Hz.
        assert (Hin : z ∈ snd <$> (events ++ [e])%list).
        { rewrite fmap_app. apply elem_of_app. simpl.
          apply elem_of_cons in Hz as [-> | Hz].
          - right. left.
          - left. unfold R in Hz. rewrite elem_of_reverse in Hz. exact Hz. }
        apply list_elem_of_fmap in Hin as [y [-> Hy]].
        apply Hfresh; [exact Hy|]. apply elem_of_app. right. left.
    + exact Hp.
Qed.

(* ------------------------------------------------------------------ *)
(** ** Concrete inputs *)

Definition usdc_leg (a : float) : TokenHolder :=
  {| th_mint := "USDC"; th_amount := a; th_decimals := 0; th_uiAmount := a |}%float.

Definition tokx_leg (a : float) : TokenHolder :=
  {| th_mint := "TOKX"; th_amount := a; th_decimals := 0; th_uiAmount := a |}%float.

(** A Jupiter swap of USDC into [a] TOKX at [ts] seconds. *)
Definition swap_buy (sig : string) (ts a : float) : ParsedTransaction := {|
  ptx_signature := sig; ptx_timestamp := ts; ptx_type := Swap;
  ptx_source := "JUPITER"; ptx_fee := 0%float; ptx_success := true;
  ptx_tokenIn := Some (usdc_leg (a * 10)%float); ptx_tokenOut := Some (tokx_leg a);
  ptx_transfer := None |}.

(** A swap of [a] TOKX into USDC at [ts] seconds. *)
Definition swap_sell (sig : string) (ts a : float) : ParsedTransaction := {|
  ptx_signature := sig; ptx_timestamp := ts; ptx_type := Swap;
  ptx_source := "JUPITER"; ptx_fee := 0%float; ptx_success := true;
  ptx_tokenIn := Some (tokx_leg a); ptx_tokenOut := Some (usdc_leg (a * 10)%float);
  ptx_transfer := None |}.

(** 2023-11-14T22:13:20Z in milliseconds. *)
Definition now0 : float := 1700000000000%float.

Definition whale0 : string := "whaleAAAAAAAAAAAAAAAAAAAAAAAAAAAAAAAAAAAAA".

(** A TOKX movement with timestamp [ts] (milliseconds). *)
Definition tokx_movement (i : nat) (ts : float) : WhaleMovement := {|
  mv_id := pretty (N.of_nat i); mv_timestamp := ts; mv_whale := whale0;
  mv_type := Swap; mv_tokenMint := "TOKX"; mv_amount := 5000%float;
  mv_usdValue := 50000%float; mv_signature := pretty (N.of_nat i);
  mv_direction := In |}.

(** [n] insertions of TOKX movements stamped [ts], recorded at clock [now]. *)
Definition tokx_events (n : nat) (now ts : float) : list (float * WhaleMovement) :=
  map (fun i => (now, tokx_movement i ts)) (seq 0 n).

(** The default configuration with the movement threshold set to zero. *)
Definition config_no_min : WhaleConfig := {|
  minWhaleHoldingsUsd := 100000; minMovementUsd := 0;
  patternWindowMs := 86400000; minPatternTxCount := 3 |}%float.

(** Three buys of zero TOKX in the last day. *)
Definition zero_buys : list ParsedTransaction :=
  [swap_buy "sigZERO00001" 1699999000 0; swap_buy "sigZERO00002" 1699999500 0;
   swap_buy "sigZERO00003" 1700000000 0]%float.

(** A registry in which [whale0] was discovered for TOKX and has since been
    classified as accumulating with 7 recent transactions. *)
Definition tracked_whale0 : WhaleProfile := {|
  wp_address := whale0; wp_tokenMint := "TOKX"; wp_holdings := 20000;
  wp_usdValue := 200000; wp_firstSeen := 1690000000000; wp_lastActivity := 1699000000000;
  wp_behavior := Accumulating; wp_recentTxCount := 7 |}%float.

Definition registry0 : WhaleRegistry := {[ "TOKX" := {[ whale0 := tracked_whale0 ]} ]}.

Definition holders0 : list LargestHolder :=
  [ {| lh_address := "holderBBBBBBBBBBBBBBBBBBBBBBBBBBBBBBBBBBBB"; lh_amount := 5;
       lh_decimals := 0; lh_uiAmount := 5 |};
    {| lh_address := whale0; lh_amount := 30000; lh_decimals := 0; lh_uiAmount := 30000 |} ]%float.

(* ================================================================== *)
(** * Claims *)

(** C6: [classifyTransactionType] follows the spec's decision order, first
    match winning, with case-insensitive substring tests on the type and
    source labels: swap signals, then stake signals (unstake when the type
    also says UNSTAKE or WITHDRAW), then transfer signals (TRANSFER, exactly
    one token transfer, at least one native transfer), else unknown.  In
    particular a source spelling JUPITER in any case with an empty type is a
    swap, and exactly one token transfer without any keyword is a transfer. *)
Theorem classify_decision_order :
  (forall tx, classifyTransactionType tx = classify_spec tx) /\
  (forall tx s, toUpperCase s = "JUPITER" -> htx_source tx = Some s ->
     upper_or_empty (htx_type tx) = "" -> classifyTransactionType tx = Swap) /\
  (forall tx,
     Forall (fun k => ~ label_has (htx_type tx) k) ["SWAP"; "STAKE"; "TRANSFER"] ->
     Forall (fun k => ~ label_has (htx_source tx) k)
       ["JUPITER"; "RAYDIUM"; "ORCA"; "MARINADE"; "JITO"] ->
     token_transfer_count tx = 1%nat -> classifyTransactionType tx = Transfer).
Proof.
  assert (Heq : forall tx, classifyTransactionType tx = classify_spec tx).
  { intros tx. unfold classify_spec, is_swap_signal, is_stake_signal,
      is_unstake_signal, is_transfer_signal.
    rewrite !bool_decide_or, !bool_decide_label_has,
      bool_decide_token_transfer_one, bool_decide_native_transfer_some.
    unfold classifyTransactionType. rewrite !orb_assoc. reflexivity. }
  split; [exact Heq | split].
  - intros tx s Hs Hsrc Hty. unfold classifyTransactionType.
    rewrite Hty, Hsrc. simpl upper_or_empty. rewrite Hs. reflexivity.
  - intros tx Hty Hsrc Hone. rewrite Heq. unfold classify_spec.
    repeat rewrite Forall_cons_iff in Hty. repeat rewrite Forall_cons_iff in Hsrc.
    destruct Hty as (Hsw & Hst & Htr & _).
    destruct Hsrc as (Hj & Hr & Ho & Hm & Hji & _).
    rewrite bool_decide_eq_false_2
      by (unfold is_swap_signal; intuition).
    rewrite bool_decide_eq_false_2
      by (unfold is_stake_signal; intuition).
    rewrite bool_decide_eq_true_2
      by (unfold is_transfer_signal; auto).
    reflexivity.
Qed.

(** C1 (as amended): pruning trims from the tail only.  After
    [recordMovement] returns, the global list is empty or has at most 10000
    entries and a last entry not older than [now - 7 days]; every per-token
    list is non-empty, has at most 1000 entries and a last entry not older
    than the cutoff.  Older entries further up the lists are kept. *)
Theorem recordMovement_prunes_tails now m st :
  let st' := recordMovement now m st in
  let cutoff := (now - MAX_MOVEMENT_AGE_MS)%float in
  (recentMovements st' = [] \/
   ((length (recentMovements st') <= MAX_MOVEMENTS_PER_TOKEN * 10)%nat /\
    last_older cutoff (recentMovements st') = false)) /\
  (forall tk xs, movementsByToken st' !! tk = Some xs ->
     xs <> [] /\ (length xs <= MAX_MOVEMENTS_PER_TOKEN)%nat /\
     last_older cutoff xs = false).
Proof. apply pruneMovements_tails. Qed.

(** C1 counterexample: a fresh swap followed by one from 11 days earlier.
    After the second insertion the stale movement is still returned by both
    [getAllRecentMovements] and [getMovementsByToken], since the tail of each
    list is the fresh one. *)
Lemma stale_movement_survives_prune :
  let st := (processTransactions now0
               [swap_buy "sigFRESH0001" 1700000000 5000;
                swap_buy "sigSTALE0001" 1699000000 5000]
               whale0 "TOKX" 10 DEFAULT_WHALE_CONFIG empty_store).2 in
  existsb (fun m => (mv_timestamp m <? now0 - MAX_MOVEMENT_AGE_MS)%float)
    (getAllRecentMovements st 100) = true /\
  existsb (fun m => (mv_timestamp m <? now0 - MAX_MOVEMENT_AGE_MS)%float)
    (getMovementsByToken st "TOKX" 50) = true.
Proof. vm_compute. split; reflexivity. Qed.

(** C4 (as amended): a movement whose timestamp is not older than
    [now - 7 days] is, right after [recordMovement], the head of
    [getMovementsByToken] for its mint and of [getAllRecentMovements]
    (for any positive limit), whatever the store held before. *)
Theorem recordMovement_fresh_head now m st limT limG :
  (mv_timestamp m <? now - MAX_MOVEMENT_AGE_MS)%float = false ->
  (0 < limT)%nat -> (0 < limG)%nat ->
  head (getMovementsByToken (recordMovement now m st) (mv_tokenMint m) limT) = Some m /\
  head (getAllRecentMovements (recordMovement now m st) limG) = Some m.
Proof.
  intros Hfresh HT HG. split.
  - unfold getMovementsByToken. rewrite lookup_recordMovement_self.
    destruct (prune_token_list_keeps (now - MAX_MOVEMENT_AGE_MS)%float [m]
      (m :: default [] (movementsByToken st !! mv_tokenMint m)))
      as (ys & -> & Hp & _).
    + discriminate.
    + apply prefix_cons, prefix_nil.
    + now apply fresh_singleton_token.
    + apply prefix_singleton_head in Hp as [rest ->]. simpl.
      destruct limT; [lia | reflexivity].
  - unfold getAllRecentMovements. rewrite recentMovements_recordMovement.
    assert (Hp : [m] `prefix_of`
      pop_while (global_prune_cond (now - MAX_MOVEMENT_AGE_MS)%float)
        (m :: recentMovements st)).
    { apply pop_while_keeps; [apply prefix_cons, prefix_nil |].
      now apply fresh_singleton_global. }
    apply prefix_singleton_head in Hp as [rest ->]. simpl.
    destruct limG; [lia | reflexivity].
Qed.

Lemma recordMovement_fresh_head_witness :
  let m := tokx_movement 0 now0 in
  head (getMovementsByToken (recordMovement now0 m empty_store) "TOKX" 50) = Some m /\
  head (getAllRecentMovements (recordMovement now0 m empty_store) 100) = Some m.
Proof.
  apply (recordMovement_fresh_head now0 (tokx_movement 0 now0) empty_store 50 100);
    [vm_compute; reflexivity | lia | lia].
Defined.

(** C4 counterexample (freshness is needed): [createMovement] turns an 11-day-old swap into a
    movement, and recording it into an empty store leaves both views empty:
    the prune pass removes it at once. *)
Lemma stale_created_movement_not_head :
  match createMovement (swap_buy "sigSTALE0001" 1699000000 5000) whale0 "TOKX" 10
          DEFAULT_WHALE_CONFIG now0 with
  | Some m =>
      getMovementsByToken (recordMovement now0 m empty_store) "TOKX" 50 = [] /\
      getAllRecentMovements (recordMovement now0 m empty_store) 100 = []
  | None => False
  end.
Proof. vm_compute. split; reflexivity. Qed.

(** C5 (as amended): after every [recordMovement] no per-token list has
    more than 1000 entries; and when more than 1000 movements of one token
    are recorded, each not older than the cutoff of any of those
    insertions, that token's list is exactly the 1000 most recently
    inserted ones, newest first. *)
Theorem per_token_list_newest_1000 tk events st :
  Forall (fun e => mv_tokenMint e.2 = tk) events ->
  (forall e1 e2, e1 ∈ events -> e2 ∈ events ->
     (mv_timestamp e1.2 <? e2.1 - MAX_MOVEMENT_AGE_MS)%float = false) ->
  (MAX_MOVEMENTS_PER_TOKEN < length events)%nat ->
  movementsByToken (record_all events st) !! tk =
    Some (take MAX_MOVEMENTS_PER_TOKEN (reverse (snd <$> events))) /\
  (forall now m st0 tk0 xs, movementsByToken (recordMovement now m st0) !! tk0 = Some xs ->
     (length xs <= MAX_MOVEMENTS_PER_TOKEN)%nat).
Proof.
  intros Htk Hfresh Hlen. split; [|apply recordMovement_bounded].
  pose proof (record_all_newest_prefix tk events st Htk Hfresh) as Hp.
  assert (HP : length (take MAX_MOVEMENTS_PER_TOKEN (reverse (snd <$> events)))
               = MAX_MOVEMENTS_PER_TOKEN).
  { rewrite length_take, length_reverse, length_fmap. lia. }
  destruct events as [|e0 rest] using rev_ind; [simpl in Hlen; lia|].
  rewrite record_all_snoc in *.
  destruct (movementsByToken (recordMovement e0.1 e0.2 (record_all rest st)) !! tk)
    as [ys|] eqn:E; simpl in Hp.
  - f_equal. symmetry. apply prefix_length_eq; [exact Hp|].
    rewrite HP. exact (recordMovement_bounded _ _ _ _ _ E).
  - apply prefix_nil_inv in Hp. rewrite Hp in HP. discriminate.
Qed.

Lemma per_token_list_newest_1000_witness :
  movementsByToken (record_all (tokx_events 1001 now0 now0) empty_store) !! "TOKX" =
    Some (take MAX_MOVEMENTS_PER_TOKEN (reverse (snd <$> tokx_events 1001 now0 now0))).
Proof.
  apply (per_token_list_newest_1000 "TOKX" (tokx_events 1001 now0 now0) empty_store).
  - unfold tokx_events. apply Forall_forall. intros e He.
    apply list_elem_of_In, in_map_iff in He as [i [<- _]]. reflexivity.
  - intros e1 e2 H1 H2. unfold tokx_events in H1, H2.
    apply list_elem_of_In, in_map_iff in H1 as [i [<- _]].
    apply list_elem_of_In, in_map_iff in H2 as [j [<- _]].
    vm_compute. reflexivity.
  - vm_compute. lia.
Defined.

(** C5 counterexample: 1001 TOKX movements stamped 1970-01-01, recorded at
    [now0], leave no TOKX list at all, not 1000 entries. *)
Lemma stale_insertions_leave_no_list :
  (MAX_MOVEMENTS_PER_TOKEN < length (tokx_events 1001 now0 0%float))%nat /\
  movementsByToken (record_all (tokx_events 1001 now0 0%float) empty_store) !! "TOKX" = None.
Proof. split; [vm_compute; lia | vm_compute; reflexivity]. Qed.

Lemma holder_with_mint_spec h tokenMint :
  holder_with_mint h tokenMint =
  if bool_decide (has_mint h tokenMint) then h else None.
Proof.
  destruct h as [t|]; simpl; [|reflexivity].
  destruct (String.eqb_spec (th_mint t) tokenMint) as [E|E].
  - rewrite bool_decide_eq_true_2 by exact E. reflexivity.
  - rewrite bool_decide_eq_false_2 by exact E. reflexivity.
Qed.

Lemma movement_leg_spec tx tokenMint :
  movement_leg tx tokenMint =
  if bool_decide (movement_related tx tokenMint)
  then Some (spec_amount tx tokenMint, spec_direction tx tokenMint) else None.
Proof.
  destruct tx as [sig ts ty src fee ok tin tout tr].
  unfold movement_leg, spec_amount, spec_direction. simpl.
  rewrite !holder_with_mint_spec.
  destruct ty; repeat case_bool_decide; unfold movement_related in *; simpl in *;
    try tauto; destruct tin, tout, tr; simpl in *; tauto.
Qed.

(** C2: [createMovement] returns [null] exactly when the transaction is
    unrelated to the tracked token (a swap with neither leg in it, a
    transfer of another mint or without a transfer leg, a type other than
    swap/transfer/stake/unstake) or when [usdValue = amount * tokenPrice] is
    not significant, i.e. not at or above [config.minMovementUsd] (so a value
    equal to the threshold is recorded).  Otherwise the movement carries that
    [usdValue], the amount of the matching leg (stake/unstake: [tokenIn] or
    0), and direction [in] for a swap buying the token and for unstake,
    [out] for swap sells, stakes and transfers. *)
Theorem createMovement_spec tx whale tm price config now :
  (createMovement tx whale tm price config now = None <->
     ~ movement_related tx tm \/
     isSignificantMovement (spec_amount tx tm * price)%float config = false) /\
  (forall m, createMovement tx whale tm price config now = Some m ->
     mv_usdValue m = (spec_amount tx tm * price)%float /\
     mv_amount m = spec_amount tx tm /\
     mv_direction m = spec_direction tx tm /\
     mv_tokenMint m = tm /\ mv_whale m = whale /\ mv_type m = ptx_type tx /\
     mv_signature m = ptx_signature tx /\
     mv_timestamp m = (ptx_timestamp tx * 1000)%float).
Proof.
  unfold createMovement. rewrite movement_leg_spec.
  case_bool_decide as Hrel.
  - destruct (isSignificantMovement (spec_amount tx tm * price)%float config) eqn:Hsig;
      simpl.
    + split.
      * split; [discriminate | intros [H | H]; [contradiction | congruence]].
      * intros m [= <-]. simpl. repeat split.
    + split; [tauto | intros m; discriminate].
  - split; [tauto | intros m; discriminate].
Qed.

Example createMovement_at_threshold :
  option_map mv_usdValue
    (createMovement (swap_buy "sigEDGE00001" 1700000000 1000) whale0 "TOKX" 10
       DEFAULT_WHALE_CONFIG now0) = Some 10000%float.
Proof. vm_compute. reflexivity. Qed.

(** The NaN confidence of C3, computed. *)
Lemma zero_buys_pattern :
  exists p, detectAccumulationPattern whale0 "TOKX" zero_buys 10 config_no_min now0 = Some p
    /\ is_nan_f (pt_confidence p) = true.
Proof. eexists. split; [vm_compute; reflexivity | vm_compute; reflexivity]. Qed.

Lemma count_step_pair tokenMint b s tx :
  count_step tokenMint (b, s) tx =
  ((if buy_signal tokenMint tx then S b else b),
   (if sell_signal tokenMint tx then S s else s)).
Proof.
  unfold count_step, buy_signal, sell_signal, is_swap, is_transfer.
  destruct (ptx_type tx); simpl; try rewrite orb_false_r; try reflexivity;
    destruct (mint_is (ptx_transfer tx) tokenMint); reflexivity.
Qed.

Lemma count_step_fold tokenMint txs b s :
  fold_left (count_step tokenMint) txs (b, s) =
  (b + length (List.filter (buy_signal tokenMint) txs),
   s + length (List.filter (sell_signal tokenMint) txs))%nat.
Proof.
  revert b s. induction txs as [|tx txs IH]; intros b s.
  - simpl. f_equal; lia.
  - cbn [fold_left]. rewrite count_step_pair, IH. simpl.
    destruct (buy_signal tokenMint tx), (sell_signal tokenMint tx); simpl; f_equal; lia.
Qed.

(** C7: [analyzeWhaleBehavior] is the spec's procedure: restrict to the
    trailing window, [holding] below the minimum count, then count buys
    (swaps out into the token, and every transfer of it) and sells (swaps in
    from it; a swap with both legs in the token counts as both), [holding]
    when buys + sells is below the minimum, else [accumulating] at a buy
    ratio of at least 0.7, [distributing] at most 0.3, [holding] between. *)
Theorem analyzeWhaleBehavior_spec walletAddress tokenMint transactions config now :
  analyzeWhaleBehavior walletAddress tokenMint transactions config now =
  behavior_spec tokenMint transactions config now.
Proof.
  unfold analyzeWhaleBehavior, behavior_spec.
  change (fun tx => (now - patternWindowMs config <=? ptx_timestamp tx * 1000)%float)
    with (in_window config now).
  destruct (num (length (List.filter (in_window config now) transactions))
              <? minPatternTxCount config)%float; [reflexivity|].
  rewrite count_step_fold. reflexivity.
Qed.

Example swap_with_both_legs_counts_twice :
  fold_left (count_step "TOKX")
    [{| ptx_signature := "sigBOTH00001"; ptx_timestamp := 1700000000; ptx_type := Swap;
        ptx_source := "JUPITER"; ptx_fee := 0; ptx_success := true;
        ptx_tokenIn := Some (tokx_leg 1); ptx_tokenOut := Some (tokx_leg 2);
        ptx_transfer := None |}%float] (0, 0)%nat = (1, 1)%nat.
Proof. reflexivity. Qed.

Lemma getWhaleProfile_insert reg tm addr inner p tm' addr' :
  reg !! tm = Some inner ->
  getWhaleProfile (<[tm := <[addr := p]> inner]> reg) tm' addr' =
  if decide (tm = tm' /\ addr = addr') then Some p else getWhaleProfile reg tm' addr'.
Proof.
  intros Hin. unfold getWhaleProfile. rewrite lookup_insert.
  destruct (decide (tm = tm')) as [<-|Hne]; simpl.
  - rewrite Hin. simpl. rewrite lookup_insert.
    destruct (decide (addr = addr')), (decide (tm = tm /\ addr = addr')); tauto.
  - destruct (decide (tm = tm' /\ addr = addr')); [tauto | reflexivity].
Qed.

(** C8: [updateWhaleProfile] leaves the registry unchanged when the token or
    the wallet is not registered.  Otherwise it replaces exactly that entry by
    the stored profile with the provided fields of the update written over it
    and [lastActivity] set to the current time; every other lookup, present
    or absent, is unchanged, so no entry is ever created. *)
Theorem updateWhaleProfile_spec reg tokenMint walletAddress update now :
  (getWhaleProfile reg tokenMint walletAddress = None ->
   updateWhaleProfile reg tokenMint walletAddress update now = reg) /\
  (forall p, getWhaleProfile reg tokenMint walletAddress = Some p ->
   let reg' := updateWhaleProfile reg tokenMint walletAddress update now in
   (forall tm addr, getWhaleProfile reg' tm addr =
      if decide (tokenMint = tm /\ walletAddress = addr)
      then Some (assign_update p update now) else getWhaleProfile reg tm addr) /\
   (forall tm, is_Some (reg' !! tm) <-> is_Some (reg !! tm)) /\
   wp_lastActivity (assign_update p update now) = now /\
   wp_address (assign_update p update now) = default (wp_address p) (pu_address update) /\
   wp_tokenMint (assign_update p update now) = default (wp_tokenMint p) (pu_tokenMint update) /\
   wp_holdings (assign_update p update now) = default (wp_holdings p) (pu_holdings update) /\
   wp_usdValue (assign_update p update now) = default (wp_usdValue p) (pu_usdValue update) /\
   wp_firstSeen (assign_update p update now) = default (wp_firstSeen p) (pu_firstSeen update) /\
   wp_behavior (assign_update p update now) = default (wp_behavior p) (pu_behavior update) /\
   wp_recentTxCount (assign_update p update now) =
     default (wp_recentTxCount p) (pu_recentTxCount update)).
Proof.
  unfold updateWhaleProfile, getWhaleProfile. split.
  - destruct (reg !! tokenMint) as [inner|]; simpl; [|reflexivity].
    intros ->. reflexivity.
  - intros p Hp. destruct (reg !! tokenMint) as [inner|] eqn:Hin; simpl in Hp; [|discriminate].
    rewrite Hp. cbv zeta. split; [|split; [|repeat split]].
    + intros tm addr. apply (getWhaleProfile_insert reg tokenMint walletAddress inner); exact Hin.
    + intros tm. rewrite lookup_insert.
      destruct (decide (tokenMint = tm)) as [<-|]; [rewrite Hin; split; intros _; eauto | reflexivity].
Qed.

Definition qualifies (tokenPrice : float) (config : WhaleConfig) (addr : string)
  (h : LargestHolder) : Prop :=
  lh_address h = addr /\ isWhale (lh_uiAmount h * tokenPrice) config = true.

#[global] Instance qualifies_dec tokenPrice config addr h :
  Decision (qualifies tokenPrice config addr h).
Proof. unfold qualifies. apply _. Defined.

Lemma getWhaleProfile_registry_set reg tm addr p tm' addr' :
  getWhaleProfile (registry_set reg tm addr p) tm' addr' =
  if decide (tm = tm' /\ addr = addr') then Some p else getWhaleProfile reg tm' addr'.
Proof.
  unfold registry_set, getWhaleProfile. rewrite lookup_insert.
  destruct (decide (tm = tm')) as [<-|Hne]; simpl.
  - rewrite lookup_insert.
    destruct (decide (addr = addr')) as [Ha|Ha];
      destruct (decide (tm = tm /\ addr = addr')) as [Hb|Hb]; try tauto.
    destruct (reg !! tm); reflexivity.
  - destruct (decide (tm = tm' /\ addr = addr')); [tauto | reflexivity].
Qed.

Lemma discover_loop_other tm price config now holders reg addr :
  Forall (fun h => ~ qualifies price config addr h) holders ->
  getWhaleProfile (discover_loop tm price config now holders reg).2 tm addr =
  getWhaleProfile reg tm addr.
Proof.
  revert reg. induction holders as [|h rest IH]; intros reg Hall; [reflexivity|].
  apply Forall_cons in Hall as [Hh Hrest]. simpl.
  destruct (isWhale (lh_uiAmount h * price) config) eqn:Hw.
  - destruct (discover_loop _ _ _ _ rest _) as [ws reg'] eqn:Hd. simpl.
    replace reg' with (discover_loop tm price config now rest
      (registry_set reg tm (lh_address h) (fresh_profile tm now (lh_uiAmount h * price) h))).2
      by (rewrite Hd; reflexivity).
    rewrite IH by exact Hrest. rewrite getWhaleProfile_registry_set.
    destruct (decide (tm = tm /\ lh_address h = addr)) as [[_ Ha]|]; [|reflexivity].
    exfalso. apply Hh. split; assumption.
  - apply IH. exact Hrest.
Qed.

Lemma discover_loop_last tm price config now holders reg addr :
  Exists (qualifies price config addr) holders ->
  exists h, h ∈ holders /\ qualifies price config addr h /\
    getWhaleProfile (discover_loop tm price config now holders reg).2 tm addr =
    Some (fresh_profile tm now (lh_uiAmount h * price) h).
Proof.
  revert reg. induction holders as [|h rest IH]; intros reg Hex.
  - inversion Hex.
  - assert (Hstep : (discover_loop tm price config now (h :: rest) reg).2 =
      (discover_loop tm price config now rest
        (if isWhale (lh_uiAmount h * price) config
         then registry_set reg tm (lh_address h) (fresh_profile tm now (lh_uiAmount h * price) h)
         else reg)).2).
    { simpl. destruct (isWhale _ config); [|reflexivity].
      destruct (discover_loop _ _ _ _ rest _); reflexivity. }
    rewrite Hstep.
    destruct (decide (Exists (qualifies price config addr) rest)) as [Hr|Hr].
    + destruct (IH (if isWhale (lh_uiAmount h * price) config
         then registry_set reg tm (lh_address h) (fresh_profile tm now (lh_uiAmount h * price) h)
         else reg) Hr) as (h' & Hin & Hq & Heq).
      exists h'. split; [apply elem_of_cons; right; exact Hin | split; assumption].
    + apply Exists_cons in Hex as [Hq|]; [|contradiction].
      exists h. split; [apply elem_of_cons; left; reflexivity | split; [exact Hq|]].
      destruct Hq as [Ha Hw]. rewrite Hw.
      rewrite discover_loop_other.
      * rewrite getWhaleProfile_registry_set.
        destruct (decide (tm = tm /\ lh_address h = addr)); [reflexivity | tauto].
      * apply Forall_Exists_neg. exact Hr.
Qed.

(** C9: when a wallet is already registered for a token and a later
    [discoverWhales] for that token lists it among the holders above the
    whale threshold, the stored profile afterwards is a freshly built one
    (from the last such holder entry): behavior [unknown], [recentTxCount]
    0, [firstSeen] and [lastActivity] equal to the discovery time; nothing
    of the previous profile is kept. *)
Theorem discoverWhales_resets_profile holders tokenMint tokenPrice config now reg addr old :
  getWhaleProfile reg tokenMint addr = Some old ->
  Exists (qualifies tokenPrice config addr) holders ->
  exists h p,
    h ∈ holders /\ lh_address h = addr /\
    getWhaleProfile (discoverWhales holders tokenMint tokenPrice config now reg).2
      tokenMint addr = Some p /\
    p = fresh_profile tokenMint now (lh_uiAmount h * tokenPrice) h /\
    wp_behavior p = BUnknown /\ wp_recentTxCount p = 0%float /\
    wp_firstSeen p = now /\ wp_lastActivity p = now /\
    wp_address p = addr /\ wp_tokenMint p = tokenMint /\
    wp_holdings p = lh_uiAmount h /\ wp_usdValue p = (lh_uiAmount h * tokenPrice)%float.
Proof.
  intros _ Hex. unfold discoverWhales.
  destruct (discover_loop_last tokenMint tokenPrice config now holders reg addr Hex)
    as (h & Hin & [Ha Hw] & Heq).
  exists h, (fresh_profile tokenMint now (lh_uiAmount h * tokenPrice) h).
  repeat split; assumption.
Qed.

Lemma discoverWhales_resets_profile_witness :
  getWhaleProfile registry0 "TOKX" whale0 = Some tracked_whale0 /\
  Exists (qualifies 10 DEFAULT_WHALE_CONFIG whale0) holders0 /\
  exists h p,
    h ∈ holders0 /\ lh_address h = whale0 /\
    getWhaleProfile (discoverWhales holders0 "TOKX" 10 DEFAULT_WHALE_CONFIG now0 registry0).2
      "TOKX" whale0 = Some p /\
    p = fresh_profile "TOKX" now0 (lh_uiAmount h * 10) h /\
    wp_behavior p = BUnknown /\ wp_recentTxCount p = 0%float /\
    wp_firstSeen p = now0 /\ wp_lastActivity p = now0 /\
    wp_address p = whale0 /\ wp_tokenMint p = "TOKX" /\
    wp_holdings p = lh_uiAmount h /\ wp_usdValue p = (lh_uiAmount h * 10)%float.
Proof.
  assert (H1 : getWhaleProfile registry0 "TOKX" whale0 = Some tracked_whale0)
    by reflexivity.
  assert (H2 : Exists (qualifies 10 DEFAULT_WHALE_CONFIG whale0) holders0).
  { apply Exists_cons_tl, Exists_cons_hd. split; [reflexivity | vm_compute; reflexivity]. }
  split; [exact H1 | split; [exact H2 |]].
  exact (discoverWhales_resets_profile holders0 "TOKX" 10 DEFAULT_WHALE_CONFIG now0
           registry0 whale0 tracked_whale0 H1 H2).
Defined.

Lemma behavior_is_value b w :
  behavior_is b w =
  match wp_behavior w, b with
  | BUnknown, BUnknown | Accumulating, Accumulating
  | Distributing, Distributing | Holding, Holding => true
  | _, _ => false
  end.
Proof. reflexivity. Qed.

Lemma filter_behavior_partition (ws : list WhaleProfile) :
  (length (List.filter (behavior_is BUnknown) ws)
   + length (List.filter (behavior_is Accumulating) ws)
   + length (List.filter (behavior_is Distributing) ws)
   + length (List.filter (behavior_is Holding) ws) = length ws)%nat.
Proof.
  induction ws as [|w ws IH]; [reflexivity|].
  cbn [List.filter].
  rewrite !(behavior_is_value _ w).
  destruct (wp_behavior w); simpl; lia.
Qed.

Lemma getTrackedWhales_elem reg tm addr w :
  getWhaleProfile reg tm addr = Some w -> w ∈ getTrackedWhales reg tm.
Proof.
  unfold getWhaleProfile, getTrackedWhales.
  destruct (reg !! tm) as [inner|]; simpl; [|discriminate].
  intros Hw. apply list_elem_of_fmap. exists (addr, w). split; [reflexivity|].
  apply elem_of_map_to_list. exact Hw.
Qed.

Lemma filter_length_pos {A} (f : A -> bool) (l : list A) x :
  x ∈ l -> f x = true -> (0 < length (List.filter f l))%nat.
Proof.
  induction l as [|y l IH]; intros Hx Hf; [inversion Hx|].
  simpl. apply elem_of_cons in Hx as [->|Hx].
  - rewrite Hf. simpl. lia.
  - destruct (f y); simpl; [lia | apply IH; assumption].
Qed.

(** C10: in [getWhaleActivitySummary] the whales of unknown behavior make up
    exactly the gap between [totalWhales] and the sum of the three behavior
    counts, so that sum is at most [totalWhales], and strictly smaller when
    some registered whale of the token has behavior [unknown]; every
    registered whale, of any behavior, is among the profiles whose
    [usdValue] [totalHoldingsUsd] adds up. *)
Theorem activity_summary_counts reg tokenMint :
  let s := getWhaleActivitySummary reg tokenMint in
  (accumulating s + distributing s + holding s
   + length (List.filter (behavior_is BUnknown) (getTrackedWhales reg tokenMint))
   = totalWhales s)%nat /\
  (accumulating s + distributing s + holding s <= totalWhales s)%nat /\
  (forall addr w, getWhaleProfile reg tokenMint addr = Some w -> wp_behavior w = BUnknown ->
     (accumulating s + distributing s + holding s < totalWhales s)%nat) /\
  (forall addr w, getWhaleProfile reg tokenMint addr = Some w ->
     w ∈ getTrackedWhales reg tokenMint) /\
  totalHoldingsUsd s =
    fold_left (fun sum w => (sum + wp_usdValue w)%float) (getTrackedWhales reg tokenMint) 0%float.
Proof.
  cbv zeta. unfold getWhaleActivitySummary; simpl.
  pose proof (filter_behavior_partition (getTrackedWhales reg tokenMint)) as Hp.
  split; [lia|]. split; [lia|]. split; [|split; [exact (getTrackedWhales_elem reg tokenMint) | reflexivity]].
  intros addr w Hw Hb.
  pose proof (filter_length_pos (behavior_is BUnknown) _ w
    (getTrackedWhales_elem reg tokenMint addr w Hw)) as Hpos.
  unfold behavior_is in Hpos at 1. rewrite Hb in Hpos. specialize (Hpos eq_refl). lia.
Qed.

(* ================================================================== *)
(** * Further properties of the code *)

(** *** Parsing *)

Lemma categorizeTransfers_acc transfers wallet incoming outgoing :
  fold_left (fun acc transfer =>
    let '(incoming, outgoing) := acc in
    if String.eqb (tt_toUserAccount transfer) wallet then ((incoming ++ [transfer])%list, outgoing)
    else if String.eqb (tt_fromUserAccount transfer) wallet
    then (incoming, (outgoing ++ [transfer])%list)
    else (incoming, outgoing)) transfers (incoming, outgoing) =
  ((incoming ++ List.filter (fun t => String.eqb (tt_toUserAccount t) wallet) transfers)%list,
   (outgoing ++ List.filter (fun t => negb (String.eqb (tt_toUserAccount t) wallet)
                                    && String.eqb (tt_fromUserAccount t) wallet) transfers)%list).
Proof.
  revert incoming outgoing.
  induction transfers as [|t ts IH]; intros incoming outgoing; simpl.
  - rewrite !app_nil_r. reflexivity.
  - destruct (String.eqb (tt_toUserAccount t) wallet); simpl;
      [|destruct (String.eqb (tt_fromUserAccount t) wallet); simpl];
      rewrite IH, <- ?app_assoc; reflexivity.
Qed.

Lemma categorizeTransfers_filter transfers wallet :
  categorizeTransfers transfers wallet =
  (List.filter (fun t => String.eqb (tt_toUserAccount t) wallet) transfers,
   List.filter (fun t => negb (String.eqb (tt_toUserAccount t) wallet)
                       && String.eqb (tt_fromUserAccount t) wallet) transfers).
Proof. unfold categorizeTransfers. rewrite categorizeTransfers_acc. reflexivity. Qed.

Lemma filter_length_le {A} (f : A -> bool) (l : list A) :
  (length (List.filter f l) <= length l)%nat.
Proof. induction l as [|x l IH]; simpl; [lia | destruct (f x); simpl; lia]. Qed.

Lemma filter_partition_length {A} (f g : A -> bool) (l : list A) :
  (forall x, f x = true -> g x = false) ->
  (length (List.filter f l) + length (List.filter g l) <= length l)%nat.
Proof.
  intros Hfg. induction l as [|x l IH]; simpl; [lia|].
  destruct (f x) eqn:Hf; [rewrite (Hfg x Hf)|]; destruct (g x); simpl; lia.
Qed.

Lemma filter_head {A} (f : A -> bool) (l : list A) a r :
  List.filter f l = a :: r -> List.In a l /\ f a = true.
Proof.
  intros H. apply filter_In. rewrite H. left. reflexivity.
Qed.

Lemma incoming_head transfers wallet a r :
  List.filter (fun t => String.eqb (tt_toUserAccount t) wallet) transfers = a :: r ->
  List.In a transfers /\ tt_toUserAccount a = wallet.
Proof.
  intros H. apply filter_head in H as [H1 H2]. split; [exact H1 | apply String.eqb_eq; exact H2].
Qed.

Lemma outgoing_head transfers wallet a r :
  List.filter (fun t => negb (String.eqb (tt_toUserAccount t) wallet)
                      && String.eqb (tt_fromUserAccount t) wallet) transfers = a :: r ->
  List.In a transfers /\ tt_fromUserAccount a = wallet /\ tt_toUserAccount a <> wallet.
Proof.
  intros H. apply filter_head in H as [H1 H2].
  apply andb_true_iff in H2 as [H2 H3]. apply negb_true_iff in H2.
  split; [exact H1 | split; [apply String.eqb_eq; exact H3 |]].
  intros He. apply String.eqb_eq in He. congruence.
Qed.

(** X1: [categorizeTransfers] puts, in input order, the transfers received by
    the wallet in [incoming] and the transfers it sent to someone else in
    [outgoing]; a transfer to itself counts as incoming only, a transfer that
    does not involve the wallet is dropped, so no transfer is in both lists. *)
Theorem categorizeTransfers_spec transfers wallet :
  let '(incoming, outgoing) := categorizeTransfers transfers wallet in
  incoming = List.filter (fun t => String.eqb (tt_toUserAccount t) wallet) transfers /\
  outgoing = List.filter (fun t => negb (String.eqb (tt_toUserAccount t) wallet)
                                 && String.eqb (tt_fromUserAccount t) wallet) transfers /\
  (forall t, List.In t incoming -> tt_toUserAccount t = wallet) /\
  (forall t, List.In t outgoing -> tt_fromUserAccount t = wallet /\ tt_toUserAccount t <> wallet) /\
  (forall t, List.In t incoming -> ~ List.In t outgoing) /\
  (length incoming + length outgoing <= length transfers)%nat.
Proof.
  rewrite categorizeTransfers_filter.
  assert (Hin : forall t, List.In t (List.filter (fun t => String.eqb (tt_toUserAccount t) wallet)
                                 transfers) -> tt_toUserAccount t = wallet).
  { intros t Ht. apply filter_In in Ht as [_ Ht]. apply String.eqb_eq. exact Ht. }
  assert (Hout : forall t, List.In t (List.filter (fun t => negb (String.eqb (tt_toUserAccount t) wallet)
                               && String.eqb (tt_fromUserAccount t) wallet) transfers) ->
            tt_fromUserAccount t = wallet /\ tt_toUserAccount t <> wallet).
  { intros t Ht. apply filter_In in Ht as [_ Ht].
    apply andb_true_iff in Ht as [H1 H2]. apply negb_true_iff in H1.
    split; [apply String.eqb_eq; exact H2 |].
    intros He. apply String.eqb_eq in He. congruence. }
  split; [reflexivity | split; [reflexivity | split; [exact Hin | split; [exact Hout | split]]]].
  - intros t H1 H2. apply Hout in H2 as [_ H2]. apply Hin in H1. contradiction.
  - apply filter_partition_length. intros t Ht. rewrite Ht. reflexivity.
Qed.

(** The legs [parseTransactionData] fills, case by case. *)
Lemma parseTransactionData_legs tx wallet :
  let p := parseTransactionData tx wallet in
  (ptx_tokenIn p, ptx_tokenOut p, ptx_transfer p) =
  match htx_tokenTransfers tx with
  | Some ((_ :: _) as transfers) =>
      let '(incoming, outgoing) := categorizeTransfers transfers wallet in
      match classifyTransactionType tx, incoming, outgoing with
      | Swap, tokenOut :: _, tokenIn :: _ =>
          (Some (holder_of_transfer tokenIn), Some (holder_of_transfer tokenOut), None)
      | Transfer, _, _ =>
          (None, None, option_map holder_of_transfer (first_transfer incoming outgoing))
      | _, _, _ => (None, None, None)
      end
  | _ => (None, None, None)
  end.
Proof.
  unfold parseTransactionData. cbv zeta.
  destruct (match htx_tokenTransfers tx with | Some ((_ :: _) as transfers) => _ | _ => _ end)
    as [[a b] c]; reflexivity.
Qed.

Lemma parseTransactionData_fields tx wallet :
  let p := parseTransactionData tx wallet in
  ptx_signature p = htx_signature tx /\ ptx_timestamp p = htx_timestamp tx /\
  ptx_type p = classifyTransactionType tx /\ ptx_source p = source_or_unknown (htx_source tx) /\
  ptx_fee p = lamportsToSol (htx_fee tx) /\ ptx_success p = true.
Proof.
  unfold parseTransactionData. cbv zeta.
  destruct (match htx_tokenTransfers tx with | Some ((_ :: _) as transfers) => _ | _ => _ end)
    as [[a b] c]; repeat split.
Qed.

(** X2: [parseTransactionData] keeps the classifier's type and marks the
    transaction successful; it fills [tokenIn] and [tokenOut] only for a
    swap, and then both, with [tokenOut] taken from a transfer received by
    the wallet and [tokenIn] from one it sent to someone else; it fills
    [transfer] only for a transfer, from a transfer that involves the
    wallet.  A stake, an unstake or an unknown transaction carries no leg. *)
Theorem parseTransactionData_spec tx wallet :
  let p := parseTransactionData tx wallet in
  let transfers := default [] (htx_tokenTransfers tx) in
  ptx_type p = classifyTransactionType tx /\ ptx_success p = true /\
  (ptx_tokenIn p = None <-> ptx_tokenOut p = None) /\
  (forall h, ptx_tokenOut p = Some h -> ptx_type p = Swap /\
     exists t, List.In t transfers /\ tt_toUserAccount t = wallet /\ h = holder_of_transfer t) /\
  (forall h, ptx_tokenIn p = Some h -> ptx_type p = Swap /\
     exists t, List.In t transfers /\ tt_fromUserAccount t = wallet /\
       tt_toUserAccount t <> wallet /\ h = holder_of_transfer t) /\
  (forall h, ptx_transfer p = Some h -> ptx_type p = Transfer /\
     exists t, List.In t transfers /\
       (tt_toUserAccount t = wallet \/ tt_fromUserAccount t = wallet) /\
       h = holder_of_transfer t).
Proof.
  cbv zeta. pose proof (parseTransactionData_legs tx wallet) as Hlegs. cbv zeta in Hlegs.
  destruct (parseTransactionData_fields tx wallet) as (_ & _ & Hty & _ & _ & Hok).
  rewrite Hty, Hok. split; [reflexivity | split; [reflexivity |]].
  revert Hlegs.
  generalize (ptx_tokenIn (parseTransactionData tx wallet)),
    (ptx_tokenOut (parseTransactionData tx wallet)),
    (ptx_transfer (parseTransactionData tx wallet)).
  intros i o r Hlegs.
  destruct (htx_tokenTransfers tx) as [[|t0 ts]|]; simpl in Hlegs |- *.
  2: rewrite categorizeTransfers_filter in Hlegs;
     remember (List.filter (fun t => String.eqb (tt_toUserAccount t) wallet) (t0 :: ts)) as I eqn:EI;
     remember (List.filter (fun t => negb (String.eqb (tt_toUserAccount t) wallet)
                 && String.eqb (tt_fromUserAccount t) wallet) (t0 :: ts)) as O eqn:EO;
     symmetry in EI, EO;
     destruct I as [|a I'];
     [|apply incoming_head in EI as (Ha1 & Ha2)];
     (destruct O as [|b O'];
     [|apply outgoing_head in EO as (Hb1 & Hb2 & Hb3)]);
     destruct (classifyTransactionType tx); simpl in Hlegs.
  all: injection Hlegs as -> -> ->.
  all: split; [split; intros; congruence |].
  all: split; [|split]; intros h Hh; try discriminate; injection Hh as <-;
       split; try reflexivity;
       match goal with |- context [holder_of_transfer ?x] => exists x end;
       repeat split; try assumption; try reflexivity;
       first [left; assumption | right; assumption].
Qed.

(** [0 * price] for a finite price is a zero, and a positive threshold is
    above it. *)
Lemma Prim2SF_finite x :
  is_finite x = true ->
  (exists s, Prim2SF x = S754_zero s) \/ (exists s m e, Prim2SF x = S754_finite s m e).
Proof.
  unfold is_finite, is_nan, is_infinity. rewrite !FloatAxioms.eqb_spec, FloatAxioms.abs_spec.
  destruct (Prim2SF x) as [s|s| |s m e] eqn:E; simpl.
  - left. eauto.
  - destruct s; vm_compute; discriminate.
  - vm_compute. discriminate.
  - right. eauto.
Qed.

Lemma zero_times_finite_below min price :
  is_finite price = true -> (0 <? min)%float = true ->
  (min <=? 0 * price)%float = false.
Proof.
  intros Hf Hmin. rewrite FloatAxioms.leb_spec, FloatAxioms.mul_spec.
  rewrite FloatAxioms.ltb_spec in Hmin.
  change (Prim2SF 0%float) with (S754_zero false) in *.
  assert (Hz : exists s, SF64mul (S754_zero false) (Prim2SF price) = S754_zero s).
  { destruct (Prim2SF_finite price Hf) as [[s ->] | (s & m & e & ->)]; eexists; reflexivity. }
  destruct Hz as [s ->].
  destruct (Prim2SF min) as [[]|[]| |[] m e]; simpl in Hmin |- *; try discriminate; reflexivity.
Qed.

Lemma parse_tokenIn_swap tx wallet h :
  ptx_tokenIn (parseTransactionData tx wallet) = Some h -> classifyTransactionType tx = Swap.
Proof.
  pose proof (parseTransactionData_legs tx wallet) as Hlegs. cbv zeta in Hlegs.
  revert Hlegs. generalize (ptx_tokenOut (parseTransactionData tx wallet)),
    (ptx_transfer (parseTransactionData tx wallet)).
  intros o r Hlegs Hh. rewrite Hh in Hlegs.
  destruct (htx_tokenTransfers tx) as [[|t0 ts]|]; simpl in Hlegs; try discriminate.
  destruct (categorizeTransfers (t0 :: ts) wallet) as [[|a I] [|b O]];
    destruct (classifyTransactionType tx); simpl in Hlegs; congruence.
Qed.

(** A raw transaction labelled as a stake. *)
Definition raw_stake : HeliusEnhancedTransaction := {|
  htx_signature := "sigSTAKE0001"; htx_timestamp := 1700000000; htx_type := Some "STAKE_SOL";
  htx_source := Some "MARINADE"; htx_fee := 5000; htx_nativeTransfers := None;
  htx_tokenTransfers := Some [ {| tt_fromUserAccount := whale0; tt_toUserAccount := "pool";
                                  tt_mint := "TOKX"; tt_tokenAmount := 50000 |} ] |}%float.

(** X3: a transaction classified as a stake or an unstake comes out of
    [parseTransactionData] without a [tokenIn] leg, so [createMovement] gives
    it amount 0 and USD value [0 * price]: with a finite token price and a
    positive [minMovementUsd] it is never a movement, whatever it moved. *)
Theorem parsed_stake_not_recorded tx wallet whale tokenMint tokenPrice config now :
  (classifyTransactionType tx = Stake \/ classifyTransactionType tx = Unstake) ->
  is_finite tokenPrice = true -> (0 <? minMovementUsd config)%float = true ->
  createMovement (parseTransactionData tx wallet) whale tokenMint tokenPrice config now = None.
Proof.
  intros Hty Hfin Hmin.
  destruct (parseTransactionData_fields tx wallet) as (_ & _ & Hpt & _).
  assert (Hin : ptx_tokenIn (parseTransactionData tx wallet) = None).
  { destruct (ptx_tokenIn (parseTransactionData tx wallet)) eqn:E; [|reflexivity].
    apply parse_tokenIn_swap in E. destruct Hty; congruence. }
  unfold createMovement, movement_leg. rewrite Hpt, Hin.
  unfold isSignificantMovement.
  destruct Hty as [-> | ->]; simpl; rewrite (zero_times_finite_below _ _ Hfin Hmin); reflexivity.
Qed.

Lemma parsed_stake_not_recorded_witness :
  (classifyTransactionType raw_stake = Stake \/ classifyTransactionType raw_stake = Unstake) /\
  is_finite 10 = true /\ (0 <? minMovementUsd DEFAULT_WHALE_CONFIG)%float = true /\
  createMovement (parseTransactionData raw_stake whale0) whale0 "TOKX" 10
    DEFAULT_WHALE_CONFIG now0 = None.
Proof.
  assert (H1 : classifyTransactionType raw_stake = Stake \/
               classifyTransactionType raw_stake = Unstake) by (left; vm_compute; reflexivity).
  assert (H2 : is_finite 10 = true) by (vm_compute; reflexivity).
  assert (H3 : (0 <? minMovementUsd DEFAULT_WHALE_CONFIG)%float = true)
    by (vm_compute; reflexivity).
  split; [exact H1 | split; [exact H2 | split; [exact H3 |]]].
  exact (parsed_stake_not_recorded raw_stake whale0 whale0 "TOKX" 10 DEFAULT_WHALE_CONFIG now0
           H1 H2 H3).
Defined.

(** *** Processing and the movement store *)

Lemma createMovement_Some_fields tx whale tokenMint tokenPrice config now m :
  createMovement tx whale tokenMint tokenPrice config now = Some m ->
  mv_whale m = whale /\ mv_tokenMint m = tokenMint /\
  isSignificantMovement (mv_usdValue m) config = true.
Proof.
  unfold createMovement. destruct (movement_leg tx tokenMint) as [[a d]|]; [|discriminate].
  destruct (isSignificantMovement (a * tokenPrice) config) eqn:E; simpl; [|discriminate].
  intros [= <-]. simpl. auto.
Qed.

(** X4: [processTransactions] returns, in input order, exactly the
    non-null results of [createMovement] on the transactions; each is a
    movement of the given whale and token whose USD value passes
    [isSignificantMovement]. *)
Theorem processTransactions_recorded now transactions whale tokenMint tokenPrice config st :
  let recorded := (processTransactions now transactions whale tokenMint tokenPrice config st).1 in
  recorded = omap (fun tx => createMovement tx whale tokenMint tokenPrice config now) transactions /\
  (forall m, m ∈ recorded ->
     mv_whale m = whale /\ mv_tokenMint m = tokenMint /\
     isSignificantMovement (mv_usdValue m) config = true).
Proof.
  cbv zeta.
  assert (Heq : forall st, (processTransactions now transactions whale tokenMint tokenPrice config st).1
    = omap (fun tx => createMovement tx whale tokenMint tokenPrice config now) transactions).
  { induction transactions as [|tx rest IH]; intros st'; [reflexivity|].
    simpl. destruct (createMovement tx whale tokenMint tokenPrice config now) as [m|] eqn:E.
    - specialize (IH (recordMovement now m st')).
      destruct (processTransactions now rest whale tokenMint tokenPrice config
                  (recordMovement now m st')) as [r s']. simpl in *. rewrite IH. reflexivity.
    - apply IH. }
  rewrite Heq. split; [reflexivity|].
  intros m Hm. apply list_elem_of_omap in Hm as (tx & _ & Hc).
  eapply createMovement_Some_fields. exact Hc.
Qed.

Lemma pop_while_prefix cond (xs : list WhaleMovement) : pop_while cond xs `prefix_of` xs.
Proof. apply pop_while_fuel_prefix. Qed.

(** X5: [recordMovement] never reorders or invents entries: afterwards the
    global list is a prefix of the movement followed by the old list; each
    per-token list is non-empty and a prefix of its old list (with the
    movement in front for the movement's token); and no token other than the
    movement's gains a list. *)
Theorem recordMovement_prefixes now m st :
  let st' := recordMovement now m st in
  recentMovements st' `prefix_of` m :: recentMovements st /\
  (forall tk ys, movementsByToken st' !! tk = Some ys ->
     ys <> [] /\
     ys `prefix_of` (if decide (tk = mv_tokenMint m)
                     then m :: default [] (movementsByToken st !! tk)
                     else default [] (movementsByToken st !! tk))) /\
  (forall tk, tk <> mv_tokenMint m -> movementsByToken st !! tk = None ->
     movementsByToken st' !! tk = None).
Proof.
  cbv zeta. split; [apply pop_while_prefix|]. split.
  - intros tk ys. unfold recordMovement. rewrite lookup_pruneMovements. simpl.
    rewrite lookup_insert.
    destruct (decide (mv_tokenMint m = tk)) as [<-|Hne];
      [rewrite decide_True by reflexivity | rewrite decide_False by congruence];
      simpl.
    + intros Hp. apply prune_token_list_Some in Hp as [-> Hne]. split; [exact Hne|].
      apply pop_while_prefix.
    + destruct (movementsByToken st !! tk) as [xs|]; simpl; [|discriminate].
      intros Hp. apply prune_token_list_Some in Hp as [-> Hne']. split; [exact Hne'|].
      apply pop_while_prefix.
  - intros tk Hne Hnone. unfold recordMovement. rewrite lookup_pruneMovements. simpl.
    rewrite lookup_insert_ne by congruence. rewrite Hnone. reflexivity.
Qed.

Lemma pop_while_false cond (xs : list WhaleMovement) :
  cond xs = false -> pop_while cond xs = xs.
Proof. intros H. unfold pop_while. destruct (length xs); simpl; [reflexivity | now rewrite H]. Qed.

(** X6: a second prune pass at the same time changes nothing:
    [pruneMovements] is idempotent. *)
Theorem pruneMovements_idempotent now st :
  pruneMovements now (pruneMovements now st) = pruneMovements now st.
Proof.
  set (cutoff := (now - MAX_MOVEMENT_AGE_MS)%float).
  unfold pruneMovements at 1. fold cutoff. destruct (pruneMovements now st) as [M R] eqn:Hst.
  assert (HR : R = pop_while (global_prune_cond cutoff) (recentMovements st))
    by (unfold pruneMovements in Hst; injection Hst as _ <-; reflexivity).
  assert (HM : M = omap (prune_token_list cutoff) (movementsByToken st))
    by (unfold pruneMovements in Hst; injection Hst as <- _; reflexivity).
  simpl. f_equal.
  - apply map_eq. intros tk. rewrite lookup_omap, HM, lookup_omap.
    destruct (movementsByToken st !! tk) as [xs|]; simpl; [|reflexivity].
    destruct (prune_token_list cutoff xs) as [ys|] eqn:E; simpl; [|reflexivity].
    apply prune_token_list_Some in E as [Hys Hne].
    unfold prune_token_list. rewrite pop_while_false.
    + destruct ys; [contradiction | reflexivity].
    + rewrite Hys. apply pop_while_stops. reflexivity.
  - rewrite HR. apply pop_while_false, pop_while_stops. reflexivity.
Qed.

Lemma recordMovement_fresh_global now m st :
  (mv_timestamp m <? now - MAX_MOVEMENT_AGE_MS)%float = false ->
  exists rest, recentMovements (recordMovement now m st) = m :: rest.
Proof.
  intros Hfresh. rewrite recentMovements_recordMovement.
  assert (Hp : [m] `prefix_of`
    pop_while (global_prune_cond (now - MAX_MOVEMENT_AGE_MS)%float) (m :: recentMovements st)).
  { apply pop_while_keeps; [apply prefix_cons, prefix_nil |].
    now apply fresh_singleton_global. }
  apply prefix_singleton_head in Hp as [rest ->]. eauto.
Qed.

Lemma type_is_self m : type_is (mv_type m) m = true.
Proof. unfold type_is. destruct (mv_type m); reflexivity. Qed.

(** X7: right after [recordMovement] of a movement that is not older than
    the 7-day cutoff, it is the first entry of [getMovementsByWhale] for its
    whale, of [getMovementsByType] for its type, and of [getLargeMovements]
    for every threshold its USD value reaches, for any positive limit. *)
Theorem recordMovement_fresh_head_filtered now m st limit minUsd :
  (mv_timestamp m <? now - MAX_MOVEMENT_AGE_MS)%float = false -> (0 < limit)%nat ->
  let st' := recordMovement now m st in
  head (getMovementsByWhale st' (mv_whale m) limit) = Some m /\
  head (getMovementsByType st' (mv_type m) limit) = Some m /\
  ((minUsd <=? mv_usdValue m)%float = true -> head (getLargeMovements st' minUsd limit) = Some m).
Proof.
  intros Hfresh Hlim. cbv zeta.
  destruct (recordMovement_fresh_global now m st Hfresh) as [rest Hr].
  unfold getMovementsByWhale, getMovementsByType, getLargeMovements. rewrite Hr.
  destruct limit as [|limit]; [lia|].
  split; [|split].
  - rewrite filter_cons_True by reflexivity. reflexivity.
  - simpl. rewrite type_is_self. reflexivity.
  - intros Hu. simpl. rewrite Hu. reflexivity.
Qed.

Lemma recordMovement_fresh_head_filtered_witness :
  let m := tokx_movement 0 now0 in
  (mv_timestamp m <? now0 - MAX_MOVEMENT_AGE_MS)%float = false /\ (0 < 5)%nat /\
  let st' := recordMovement now0 m empty_store in
  head (getMovementsByWhale st' (mv_whale m) 5) = Some m /\
  head (getMovementsByType st' (mv_type m) 5) = Some m /\
  ((20000 <=? mv_usdValue m)%float = true -> head (getLargeMovements st' 20000 5) = Some m).
Proof.
  assert (H1 : (mv_timestamp (tokx_movement 0 now0) <? now0 - MAX_MOVEMENT_AGE_MS)%float = false)
    by (vm_compute; reflexivity).
  assert (H2 : (0 < 5)%nat) by lia.
  cbv zeta. split; [exact H1 | split; [exact H2 |]].
  exact (recordMovement_fresh_head_filtered now0 (tokx_movement 0 now0) empty_store 5 20000 H1 H2).
Defined.

(** A store holding one fresh TOKX movement of [whale0]. *)
Definition sample_store : MovementStore :=
  recordMovement now0 (tokx_movement 0 now0) empty_store.

(** X8: after [clearMovements] every query of the movement store is empty:
    the global, per-token, per-whale, per-type and large-movement lists,
    the statistics of any window (all counts and volumes 0, no largest
    movement) and the net flow (0 USD, 0 tokens, neutral); and recording a
    movement that is not older than the cutoff leaves it as the only entry
    of the global list and of its token's list. *)
Theorem clearMovements_then_record now m st :
  (mv_timestamp m <? now - MAX_MOVEMENT_AGE_MS)%float = false ->
  (forall limit, getAllRecentMovements (clearMovements st) limit = []) /\
  (forall tk limit, getMovementsByToken (clearMovements st) tk limit = []) /\
  (forall w limit, getMovementsByWhale (clearMovements st) w limit = []) /\
  (forall type limit, getMovementsByType (clearMovements st) type limit = []) /\
  (forall minUsd limit, getLargeMovements (clearMovements st) minUsd limit = []) /\
  (forall tk windowMs t, getMovementStats (clearMovements st) tk windowMs t =
     {| totalMovements := 0; totalVolumeUsd := 0; inflows := 0; outflows := 0;
        inflowVolumeUsd := 0; outflowVolumeUsd := 0; largestMovement := None;
        averageMovementUsd := 0; swaps := 0; transfers := 0; stakes := 0 |}%float) /\
  (forall tk windowMs t1 t2, getNetFlow (clearMovements st) tk windowMs t1 t2 =
     {| netFlowUsd := 0; netFlowAmount := 0; sentiment := Neutral |}%float) /\
  recentMovements (recordMovement now m (clearMovements st)) = [m] /\
  movementsByToken (recordMovement now m (clearMovements st)) = {[ mv_tokenMint m := [m] ]}.
Proof.
  intros Hfresh. split; [intros limit; apply take_nil|].
  split; [intros tk limit; unfold getMovementsByToken; simpl; rewrite lookup_empty; apply take_nil|].
  split; [intros w limit; apply take_nil|].
  split; [intros type limit; apply take_nil|].
  split; [intros minUsd limit; apply take_nil|].
  split; [intros tk windowMs t; unfold getMovementStats, movements_since; simpl;
          rewrite lookup_empty; reflexivity|].
  split; [intros tk windowMs t1 t2; unfold getNetFlow, getMovementStats, movements_since; simpl;
          rewrite lookup_empty; reflexivity|].
  split.
  - rewrite recentMovements_recordMovement. simpl. apply pop_while_false.
    now apply fresh_singleton_global.
  - apply map_eq. intros tk. unfold recordMovement. rewrite lookup_pruneMovements. simpl.
    rewrite lookup_insert, lookup_singleton.
    destruct (decide (mv_tokenMint m = tk)) as [<-|]; [|rewrite lookup_empty; reflexivity].
    rewrite lookup_empty. simpl. unfold prune_token_list. rewrite pop_while_false; [reflexivity|].
    now apply fresh_singleton_token.
Qed.

Lemma clearMovements_then_record_witness :
  (mv_timestamp (tokx_movement 0 now0) <? now0 - MAX_MOVEMENT_AGE_MS)%float = false /\
  recentMovements (recordMovement now0 (tokx_movement 0 now0) (clearMovements sample_store))
    = [tokx_movement 0 now0] /\
  getMovementsByWhale (clearMovements sample_store) whale0 50 = [].
Proof.
  assert (H1 : (mv_timestamp (tokx_movement 0 now0) <? now0 - MAX_MOVEMENT_AGE_MS)%float = false)
    by (vm_compute; reflexivity).
  destruct (clearMovements_then_record now0 (tokx_movement 0 now0) sample_store H1)
    as (_ & _ & Hw & _ & _ & _ & _ & Hr & _).
  split; [exact H1 | split; [exact Hr | apply Hw]].
Defined.

Lemma in_out_partition (ms : list WhaleMovement) :
  (length (List.filter is_in ms) + length (List.filter is_out ms) = length ms)%nat.
Proof.
  induction ms as [|m ms IH]; [reflexivity|].
  simpl. unfold is_in at 1, is_out at 1. destruct (mv_direction m); simpl; lia.
Qed.

Lemma type_is_value type m :
  type_is type m =
  match mv_type m, type with
  | Swap, Swap | Transfer, Transfer | Stake, Stake | Unstake, Unstake
  | Mint, Mint | Burn, Burn | Unknown, Unknown => true
  | _, _ => false
  end.
Proof. reflexivity. Qed.

Lemma type_counts_le (ms : list WhaleMovement) :
  (length (List.filter (type_is Swap) ms) + length (List.filter (type_is Transfer) ms)
   + length (List.filter (fun m => type_is Stake m || type_is Unstake m) ms) <= length ms)%nat.
Proof.
  induction ms as [|m ms IH]; [simpl; lia|].
  cbn [List.filter]. rewrite !(type_is_value _ m). destruct (mv_type m); simpl; lia.
Qed.

Lemma fold_pick_largest (ms : list WhaleMovement) acc :
  (fold_left pick_largest ms acc = None <-> acc = None /\ ms = []) /\
  (forall l, fold_left pick_largest ms acc = Some l -> acc = Some l \/ l ∈ ms).
Proof.
  revert acc. induction ms as [|m ms IH]; intros acc; simpl.
  - split; [split; [intros H; auto | intros [H _]; exact H] | intros l H; left; exact H].
  - destruct (IH (pick_largest acc m)) as [IH1 IH2]. split.
    + rewrite IH1. unfold pick_largest.
      split; [intros [H _]; destruct acc as [a|]; [destruct (_ <? _)%float|]; discriminate
             | intros [_ H]; discriminate].
    + intros l Hl. apply IH2 in Hl as [Hl | Hl].
      * unfold pick_largest in Hl. destruct acc as [a|].
        -- destruct (mv_usdValue a <? mv_usdValue m)%float; injection Hl as <-;
             [right; left | left; reflexivity].
        -- injection Hl as <-. right. left.
      * right. right. exact Hl.
Qed.

(** X9: in [getMovementStats] every counted movement is an inflow or an
    outflow, the swap, transfer and stake counts never exceed the total,
    there is a largest movement exactly when the window holds a movement,
    and it is one of the token's movements inside the window; with no
    movement in the window, volumes and average are 0. *)
Theorem getMovementStats_spec st tokenMint windowMs now :
  let s := getMovementStats st tokenMint windowMs now in
  (inflows s + outflows s = totalMovements s)%nat /\
  (swaps s + transfers s + stakes s <= totalMovements s)%nat /\
  (largestMovement s = None <-> totalMovements s = 0%nat) /\
  (forall l, largestMovement s = Some l ->
     l ∈ default [] (movementsByToken st !! tokenMint) /\
     (now - windowMs <=? mv_timestamp l)%float = true) /\
  (totalMovements s = 0%nat ->
     inflowVolumeUsd s = 0%float /\ outflowVolumeUsd s = 0%float /\
     totalVolumeUsd s = 0%float /\ averageMovementUsd s = 0%float).
Proof.
  cbv zeta. unfold getMovementStats. cbv zeta. simpl.
  set (ms := movements_since st tokenMint (now - windowMs)).
  split; [apply in_out_partition|]. split; [apply type_counts_le|].
  destruct (fold_pick_largest ms None) as [H1 H2]. split.
  - rewrite H1. split; [intros [_ ->]; reflexivity | intros H; split; [reflexivity|]].
    destruct ms; [reflexivity | discriminate].
  - split.
    + intros l Hl. apply H2 in Hl as [Hl | Hl]; [discriminate|].
      unfold ms, movements_since in Hl. apply list_elem_of_In, filter_In in Hl as [Hl Ht].
      split; [apply list_elem_of_In; exact Hl | exact Ht].
    + intros H. destruct ms; [|discriminate]. simpl. repeat split.
Qed.

Lemma filter_all_false {A} (f : A -> bool) (l : list A) :
  Forall (fun x => f x = false) l -> List.filter f l = [].
Proof.
  intros H. induction H as [|x l Hx _ IH]; simpl; [reflexivity | rewrite Hx; exact IH].
Qed.

(** X10: movements recorded for the token but older than the window (at
    both clock readings) do not count: [getMovementStats] sees no movement
    and no largest one, and [getNetFlow] reports a net flow of 0 USD and
    0 tokens and a neutral sentiment, however large those movements are. *)
Theorem getNetFlow_empty_window st tokenMint windowMs now_stats now :
  Forall (fun m => (now_stats - windowMs <=? mv_timestamp m)%float = false /\
                   (now - windowMs <=? mv_timestamp m)%float = false)
    (default [] (movementsByToken st !! tokenMint)) ->
  totalMovements (getMovementStats st tokenMint windowMs now_stats) = 0%nat /\
  largestMovement (getMovementStats st tokenMint windowMs now_stats) = None /\
  getNetFlow st tokenMint windowMs now_stats now =
  {| netFlowUsd := 0; netFlowAmount := 0; sentiment := Neutral |}%float.
Proof.
  intros Hall.
  assert (H1 : movements_since st tokenMint (now_stats - windowMs) = []).
  { apply filter_all_false. eapply Forall_impl; [exact Hall|]. intros m [Hm _]; exact Hm. }
  assert (H2 : movements_since st tokenMint (now - windowMs) = []).
  { apply filter_all_false. eapply Forall_impl; [exact Hall|]. intros m [_ Hm]; exact Hm. }
  unfold getNetFlow, getMovementStats. cbv zeta. simpl.
  rewrite H1, H2. split; [reflexivity | split; reflexivity].
Qed.

(** Two 50000 USD TOKX buys recorded two days before [now0]: inside the
    7-day retention, outside a one-day window. *)
Definition stale_window_store : MovementStore :=
  recordMovement now0 (tokx_movement 1 (now0 - 172800000)%float)
    (recordMovement now0 (tokx_movement 0 (now0 - 172800000)%float) empty_store).

Lemma getNetFlow_empty_window_witness :
  length (default [] (movementsByToken stale_window_store !! "TOKX")) = 2%nat /\
  Forall (fun m => (now0 - 86400000 <=? mv_timestamp m)%float = false /\
                   (now0 + 5 - 86400000 <=? mv_timestamp m)%float = false)
    (default [] (movementsByToken stale_window_store !! "TOKX")) /\
  getNetFlow stale_window_store "TOKX" 86400000 now0 (now0 + 5) =
  {| netFlowUsd := 0; netFlowAmount := 0; sentiment := Neutral |}%float.
Proof.
  assert (H : Forall (fun m => (now0 - 86400000 <=? mv_timestamp m)%float = false /\
                   (now0 + 5 - 86400000 <=? mv_timestamp m)%float = false)
    (default [] (movementsByToken stale_window_store !! "TOKX")))
    by (vm_compute; repeat constructor).
  split; [vm_compute; reflexivity | split; [exact H |]].
  destruct (getNetFlow_empty_window stale_window_store "TOKX" 86400000 now0 (now0 + 5) H)
    as (_ & _ & Hn).
  exact Hn.
Defined.

(** [analyzeWhaleBehavior] always answers one of the three behaviours it
    classifies into. *)
Lemma analyzeWhaleBehavior_not_unknown walletAddress tokenMint transactions config now :
  analyzeWhaleBehavior walletAddress tokenMint transactions config now <> BUnknown.
Proof.
  unfold analyzeWhaleBehavior. cbv zeta.
  destruct (_ <? _)%float; [discriminate|].
  destruct (fold_left _ _ _) as [b s].
  repeat case_match; discriminate.
Qed.

Lemma SFcompare_swap x y :
  SFcompare y x = option_map CompOpp (SFcompare x y).
Proof.
  destruct x as [s|s| |s m e], y as [s'|s'| |s' m' e'];
    try destruct s; try destruct s'; simpl; try reflexivity;
    rewrite (Z.compare_antisym e' e); destruct (e' ?= e)%Z; simpl; try reflexivity;
    pose proof (Pos.compare_cont_antisym m m' Eq) as Hm; simpl in Hm;
    rewrite <- Hm; destruct (Pos.compare_cont Eq m m'); reflexivity.
Qed.

Lemma ltb_leb (a b : float) : (a <? b)%float = true -> (a <=? b)%float = true.
Proof.
  rewrite FloatAxioms.ltb_spec, FloatAxioms.leb_spec. unfold SFltb, SFleb.
  destruct (SFcompare _ _) as [[]|]; auto.
Qed.

Lemma eqb_leb_sym (a b : float) : (a =? b)%float = true -> (b <=? a)%float = true.
Proof.
  rewrite FloatAxioms.eqb_spec, FloatAxioms.leb_spec. unfold SFeqb, SFleb.
  rewrite (SFcompare_swap (Prim2SF a)).
  destruct (SFcompare (Prim2SF a) _) as [[]|]; simpl; auto.
Qed.

(** [Math.max(0, Math.min(1, x))] lies in [[0, 1]] unless it is NaN. *)
Lemma clamp01_bounds x :
  is_nan_f (js_max 0 (js_min 1 x)) = false ->
  (0 <=? js_max 0 (js_min 1 x))%float = true /\ (js_max 0 (js_min 1 x) <=? 1)%float = true.
Proof.
  unfold js_min. change (is_nan_f 1) with false. cbv iota.
  destruct (is_nan_f x) eqn:Hn.
  - unfold js_max. change (is_nan_f 0) with false. cbv iota. rewrite Hn. congruence.
  - destruct (x <? 1)%float eqn:Hlt.
    + intros _. unfold js_max. change (is_nan_f 0) with false. rewrite Hn. cbv iota.
      destruct (0 <? x)%float eqn:H0.
      * split; apply ltb_leb; assumption.
      * change (get_sign 0) with false. rewrite andb_false_r. split; reflexivity.
    + destruct ((1 =? x)%float && get_sign x) eqn:He.
      * intros _. apply andb_true_iff in He as [He _].
        unfold js_max. change (is_nan_f 0) with false. rewrite Hn. cbv iota.
        destruct (0 <? x)%float eqn:H0.
        -- split; [apply ltb_leb; assumption | apply eqb_leb_sym; assumption].
        -- change (get_sign 0) with false. rewrite andb_false_r. split; reflexivity.
      * intros _. split; reflexivity.
Qed.

Lemma detect_pattern_Some leg kind walletAddress tokenMint transactions tokenPrice config now p :
  detect_pattern leg kind walletAddress tokenMint transactions tokenPrice config now = Some p ->
  pt_whale p = walletAddress /\ pt_tokenMint p = tokenMint /\ pt_type p = kind /\
  (pt_txCount p <? minPatternTxCount config)%float = false /\
  (pt_totalUsdValue p <? minMovementUsd config * minPatternTxCount config)%float = false /\
  (is_nan_f (pt_confidence p) = false ->
   (0 <=? pt_confidence p)%float = true /\ (pt_confidence p <=? 1)%float = true).
Proof.
  unfold detect_pattern. cbv zeta.
  destruct (_ <? minPatternTxCount config)%float eqn:H1; [discriminate|].
  destruct (_ <? minMovementUsd config * _)%float eqn:H2; [discriminate|].
  intros [= <-]. simpl.
  split; [reflexivity | split; [reflexivity | split; [reflexivity |]]].
  split; [exact H1 | split; [exact H2 |]].
  apply clamp01_bounds.
Qed.

(** X11: [analyzeWhale] stores the parsed transactions as the wallet's
    history (other wallets' histories untouched), reports a behaviour other
    than [unknown], returns at most an accumulation pattern followed by a
    distribution pattern, both for the analysed wallet and token, and
    writes back only to an already registered profile: its behaviour becomes
    the reported one, [recentTxCount] the number of fetched transactions
    (not only those in the window) and [lastActivity] the time of the update;
    every other profile, and the whole registry when the wallet is not
    registered for the token, is unchanged. *)
Theorem analyzeWhale_spec rawTxs walletAddress tokenMint tokenPrice config
  now_b now_a now_d now_u st :
  let '(analysis, st') :=
    analyzeWhale rawTxs walletAddress tokenMint tokenPrice config now_b now_a now_d now_u st in
  wa_behavior analysis <> BUnknown /\
  ws_history st' !! walletAddress =
    Some (map (fun tx => parseTransactionData tx walletAddress) rawTxs) /\
  (forall w, w <> walletAddress -> ws_history st' !! w = ws_history st !! w) /\
  (map pt_type (wa_patterns analysis) = [] \/
   map pt_type (wa_patterns analysis) = [Accumulation] \/
   map pt_type (wa_patterns analysis) = [Distribution] \/
   map pt_type (wa_patterns analysis) = [Accumulation; Distribution]) /\
  (forall p, p ∈ wa_patterns analysis ->
   pt_whale p = walletAddress /\ pt_tokenMint p = tokenMint) /\
  (getWhaleProfile (ws_registry st) tokenMint walletAddress = None ->
   ws_registry st' = ws_registry st) /\
  (forall prof, getWhaleProfile (ws_registry st) tokenMint walletAddress = Some prof ->
   forall tm addr, getWhaleProfile (ws_registry st') tm addr =
     if decide (tokenMint = tm /\ walletAddress = addr)
     then Some {| wp_address := wp_address prof; wp_tokenMint := wp_tokenMint prof;
                  wp_holdings := wp_holdings prof; wp_usdValue := wp_usdValue prof;
                  wp_firstSeen := wp_firstSeen prof; wp_lastActivity := now_u;
                  wp_behavior := wa_behavior analysis;
                  wp_recentTxCount := num (length rawTxs) |}
     else getWhaleProfile (ws_registry st) tm addr).
Proof.
  unfold analyzeWhale.
  set (txs := map (fun tx => parseTransactionData tx walletAddress) rawTxs).
  set (acc := detectAccumulationPattern walletAddress tokenMint txs tokenPrice config now_a).
  set (dis := detectDistributionPattern walletAddress tokenMint txs tokenPrice config now_d).
  cbn [wa_behavior wa_patterns ws_history ws_registry].
  split; [apply analyzeWhaleBehavior_not_unknown|].
  split; [apply lookup_insert_eq|].
  split; [intros w Hw; apply lookup_insert_ne; congruence|].
  assert (Hacc : forall p, acc = Some p ->
    pt_whale p = walletAddress /\ pt_tokenMint p = tokenMint /\ pt_type p = Accumulation)
    by (intros p Hp; apply detect_pattern_Some in Hp; tauto).
  assert (Hdis : forall p, dis = Some p ->
    pt_whale p = walletAddress /\ pt_tokenMint p = tokenMint /\ pt_type p = Distribution)
    by (intros p Hp; apply detect_pattern_Some in Hp; tauto).
  split.
  { destruct acc as [a|], dis as [d|]; simpl.
    - destruct (Hacc a) as (_ & _ & ->); [reflexivity|].
      destruct (Hdis d) as (_ & _ & ->); [reflexivity|]. tauto.
    - destruct (Hacc a) as (_ & _ & ->); [reflexivity|]. tauto.
    - destruct (Hdis d) as (_ & _ & ->); [reflexivity|]. tauto.
    - tauto. }
  split.
  { intros p Hp. destruct acc as [a|], dis as [d|]; simpl in Hp;
      repeat match goal with
      | H : _ ∈ [] |- _ => apply elem_of_nil in H; contradiction
      | H : _ ∈ _ :: _ |- _ => apply elem_of_cons in H as [H|H]
      | H : p = a |- _ => subst p; destruct (Hacc a) as (? & ? & _); [reflexivity|]; tauto
      | H : p = d |- _ => subst p; destruct (Hdis d) as (? & ? & _); [reflexivity|]; tauto
      end. }
  split.
  { unfold getWhaleProfile, updateWhaleProfile. intros Hn.
    destruct (ws_registry st !! tokenMint) as [inner|]; simpl in Hn; [|reflexivity].
    rewrite Hn. reflexivity. }
  intros prof Hp tm addr.
  unfold updateWhaleProfile.
  unfold getWhaleProfile in Hp at 1.
  destruct (ws_registry st !! tokenMint) as [inner|] eqn:Hin; simpl in Hp; [|discriminate].
  rewrite Hp. rewrite (getWhaleProfile_insert (ws_registry st) tokenMint walletAddress inner)
    by exact Hin.
  unfold txs. rewrite length_map. reflexivity.
Qed.

(** X12: both pattern detectors return a pattern only for the wallet and
    token asked about, with the type of the detector, past both gates
    (at least [minPatternTxCount] swaps in the window and a USD total of at
    least [minMovementUsd * minPatternTxCount]), and with a confidence that
    is NaN or lies in [[0, 1]]. *)
Theorem detect_patterns_gates :
  (forall walletAddress tokenMint transactions tokenPrice config now p,
   detectAccumulationPattern walletAddress tokenMint transactions tokenPrice config now = Some p ->
   pt_whale p = walletAddress /\ pt_tokenMint p = tokenMint /\ pt_type p = Accumulation /\
   (pt_txCount p <? minPatternTxCount config)%float = false /\
   (pt_totalUsdValue p <? minMovementUsd config * minPatternTxCount config)%float = false /\
   (is_nan_f (pt_confidence p) = false ->
    (0 <=? pt_confidence p)%float = true /\ (pt_confidence p <=? 1)%float = true)) /\
  (forall walletAddress tokenMint transactions tokenPrice config now p,
   detectDistributionPattern walletAddress tokenMint transactions tokenPrice config now = Some p ->
   pt_whale p = walletAddress /\ pt_tokenMint p = tokenMint /\ pt_type p = Distribution /\
   (pt_txCount p <? minPatternTxCount config)%float = false /\
   (pt_totalUsdValue p <? minMovementUsd config * minPatternTxCount config)%float = false /\
   (is_nan_f (pt_confidence p) = false ->
    (0 <=? pt_confidence p)%float = true /\ (pt_confidence p <=? 1)%float = true)).
Proof.
  split; intros until p; apply detect_pattern_Some.
Qed.

Lemma discover_loop_fst tm price config now holders reg :
  (discover_loop tm price config now holders reg).1 =
  map (fun h => fresh_profile tm now (lh_uiAmount h * price) h)
    (List.filter (fun h => isWhale (lh_uiAmount h * price) config) holders).
Proof.
  revert reg. induction holders as [|h rest IH]; intros reg; [reflexivity|]. simpl.
  destruct (isWhale (lh_uiAmount h * price) config) eqn:Hw; [|apply IH].
  destruct (discover_loop _ _ _ _ rest _) as [ws reg'] eqn:Hd. simpl. f_equal.
  rewrite <- (IH (registry_set reg tm (lh_address h) (fresh_profile tm now (lh_uiAmount h * price) h))).
  rewrite Hd. reflexivity.
Qed.

Lemma discover_loop_other_token tm price config now holders reg tm' :
  tm' <> tm -> (discover_loop tm price config now holders reg).2 !! tm' = reg !! tm'.
Proof.
  intros Hne. revert reg. induction holders as [|h rest IH]; intros reg; [reflexivity|]. simpl.
  destruct (isWhale (lh_uiAmount h * price) config) eqn:Hw; [|apply IH].
  destruct (discover_loop _ _ _ _ rest _) as [ws reg'] eqn:Hd. simpl.
  replace reg' with (discover_loop tm price config now rest
    (registry_set reg tm (lh_address h) (fresh_profile tm now (lh_uiAmount h * price) h))).2
    by (rewrite Hd; reflexivity).
  rewrite IH. unfold registry_set. apply lookup_insert_ne. congruence.
Qed.

Lemma discover_loop_nil tm price config now holders reg :
  (discover_loop tm price config now holders reg).1 = [] ->
  (discover_loop tm price config now holders reg).2 = reg.
Proof.
  revert reg. induction holders as [|h rest IH]; intros reg; [reflexivity|]. simpl.
  destruct (isWhale (lh_uiAmount h * price) config) eqn:Hw; [|apply IH].
  destruct (discover_loop _ _ _ _ rest _). discriminate.
Qed.

(** X13: [discoverWhales] returns a fresh profile (behaviour [unknown], no
    recent transactions, first seen and last active now) for every holder
    whose USD value reaches [minWhaleHoldingsUsd], in the provider's order;
    it touches no other token's entry, leaves the profile of an address no
    qualifying holder has, and when it finds no whale it leaves the registry
    exactly as it was (no empty entry is created for the token). *)
Theorem discoverWhales_spec holders tokenMint tokenPrice config now reg :
  let '(whales, reg') := discoverWhales holders tokenMint tokenPrice config now reg in
  whales = map (fun h => fresh_profile tokenMint now (lh_uiAmount h * tokenPrice) h)
    (List.filter (fun h => isWhale (lh_uiAmount h * tokenPrice) config) holders) /\
  (forall w, w ∈ whales ->
   isWhale (wp_usdValue w) config = true /\ wp_tokenMint w = tokenMint /\
   wp_behavior w = BUnknown /\ wp_recentTxCount w = 0%float /\
   wp_firstSeen w = now /\ wp_lastActivity w = now) /\
  (forall tm, tm <> tokenMint -> reg' !! tm = reg !! tm) /\
  (forall addr, Forall (fun h => ~ qualifies tokenPrice config addr h) holders ->
   getWhaleProfile reg' tokenMint addr = getWhaleProfile reg tokenMint addr) /\
  (whales = [] -> reg' = reg).
Proof.
  unfold discoverWhales.
  pose proof (discover_loop_fst tokenMint tokenPrice config now holders reg) as Hf.
  pose proof (discover_loop_other_token tokenMint tokenPrice config now holders reg) as Ho.
  pose proof (discover_loop_other tokenMint tokenPrice config now holders reg) as Ha.
  pose proof (discover_loop_nil tokenMint tokenPrice config now holders reg) as Hn.
  destruct (discover_loop tokenMint tokenPrice config now holders reg) as [whales reg'].
  simpl in Hf, Ho, Ha, Hn.
  split; [exact Hf|]. split; [|split; [exact Ho | split; [exact Ha | exact Hn]]].
  intros w Hw. rewrite Hf in Hw. apply list_elem_of_In, in_map_iff in Hw as (h & <- & Hh).
  apply filter_In in Hh as [_ Hh]. simpl. repeat split. exact Hh.
Qed.

(** X14: after [clearWhaleRegistry] no token has tracked whales, no profile
    or history is found, and a following [analyzeWhale] creates no profile
    (the registry stays empty) while its history holds only the analysed
    wallet's transactions. *)
Theorem clearWhaleRegistry_then_analyze st rawTxs walletAddress tokenMint tokenPrice config
  now_b now_a now_d now_u tm addr :
  let st0 := clearWhaleRegistry st in
  getTrackedWhales (ws_registry st0) tm = [] /\
  getWhaleProfile (ws_registry st0) tm addr = None /\
  ws_history st0 !! addr = None /\
  totalWhales (getWhaleActivitySummary (ws_registry st0) tm) = 0%nat /\
  let st1 := (analyzeWhale rawTxs walletAddress tokenMint tokenPrice config
                now_b now_a now_d now_u st0).2 in
  ws_registry st1 = ∅ /\
  ws_history st1 = {[ walletAddress := map (fun tx => parseTransactionData tx walletAddress) rawTxs ]}.
Proof.
  cbv zeta. unfold clearWhaleRegistry. simpl.
  split; [reflexivity | split; [reflexivity | split; [apply lookup_empty | split; [reflexivity |]]]].
  unfold analyzeWhale, updateWhaleProfile. simpl.
  rewrite lookup_empty. split; [reflexivity|].
  apply insert_empty.
Qed.

Lemma string_length_append (s t : string) :
  String.length (s ++ t) = (String.length s + String.length t)%nat.
Proof. induction s as [|c s IH]; simpl; [reflexivity | rewrite IH; reflexivity]. Qed.

Lemma substring_length (s : string) n m :
  String.length (substring n m s) = Nat.min m (String.length s - n).
Proof.
  revert n m. induction s as [|c s IH]; intros [|n] [|m]; simpl; try reflexivity.
  - rewrite IH. lia.
  - rewrite IH. reflexivity.
  - rewrite IH. reflexivity.
Qed.

Lemma formatAddress_long address chars :
  (chars * 2 + 3 < String.length address)%nat -> (0 < chars)%nat ->
  formatAddress address chars =
    substring 0 chars address ++ "..." ++
    substring (String.length address - chars) chars address /\
  String.length (formatAddress address chars) = (chars * 2 + 3)%nat.
Proof.
  intros Hl Hc. unfold formatAddress, slice_from_end.
  destruct address as [|a rest]; [simpl in Hl; lia|].
  replace (String.length (String a rest) <=? chars * 2 + 3)%nat with false
    by (symmetry; apply Nat.leb_gt; exact Hl).
  replace (chars =? 0)%nat with false by (symmetry; apply Nat.eqb_neq; lia).
  simpl String.eqb. rewrite orb_false_r. cbv iota. split; [reflexivity|].
  rewrite !string_length_append, !substring_length. simpl String.length in *. lia.
Qed.

(** X15: [formatAddress] returns the empty string and any address of at
    most [2 * chars + 3] characters unchanged; a longer one becomes its
    first [chars] characters, ["..."] and its last [chars] characters,
    [2 * chars + 3] characters in all; with [chars = 0] ([slice(-0)] is the
    whole string) a longer address is returned whole behind ["..."], so it
    grows instead of shrinking. *)
Theorem formatAddress_spec address chars :
  ((String.length address <= chars * 2 + 3)%nat -> formatAddress address chars = address) /\
  ((chars * 2 + 3 < String.length address)%nat -> (0 < chars)%nat ->
   formatAddress address chars =
     substring 0 chars address ++ "..." ++
     substring (String.length address - chars) chars address /\
   String.length (formatAddress address chars) = (chars * 2 + 3)%nat) /\
  ((3 < String.length address)%nat -> formatAddress address 0 = "..." ++ address /\
   String.length (formatAddress address 0) = (String.length address + 3)%nat).
Proof.
  split; [|split; [apply formatAddress_long|]].
  - intros Hl. unfold formatAddress.
    replace (String.length address <=? chars * 2 + 3)%nat with true
      by (symmetry; apply Nat.leb_le; exact Hl).
    rewrite orb_true_r. reflexivity.
  - intros Hl. unfold formatAddress, slice_from_end.
    destruct address as [|a rest]; [simpl in Hl; lia|].
    replace (String.length (String a rest) <=? 0 * 2 + 3)%nat with false
      by (symmetry; apply Nat.leb_gt; exact Hl).
    simpl. split; [reflexivity|]. lia.
Qed.

Lemma base58_char_excludes c :
  base58_char c = true -> c <> "0"%char /\ c <> "O"%char /\ c <> "I"%char /\ c <> "l"%char.
Proof.
  intros Hc. repeat split; intros ->; vm_compute in Hc; discriminate.
Qed.

(** X16: an address [isValidAddress] accepts has 32 to 44 characters, none
    of them one of the characters base58 leaves out ([0], [O], [I], [l]), and
    [formatAddress] with the default [chars = 4] always shortens it to its
    first 4 characters, ["..."] and its last 4 characters (11 in all). *)
Theorem isValidAddress_spec address :
  isValidAddress address = true ->
  (32 <= String.length address <= 44)%nat /\
  (forall c, List.In c (list_ascii_of_string address) ->
   c <> "0"%char /\ c <> "O"%char /\ c <> "I"%char /\ c <> "l"%char) /\
  formatAddress address 4 =
    substring 0 4 address ++ "..." ++ substring (String.length address - 4) 4 address /\
  String.length (formatAddress address 4) = 11%nat.
Proof.
  unfold isValidAddress. intros H.
  apply andb_true_iff in H as [H Hall]. apply andb_true_iff in H as [H1 H2].
  apply Nat.leb_le in H1, H2. rewrite forallb_forall in Hall.
  split; [lia|]. split.
  - intros c Hc. apply base58_char_excludes, Hall, Hc.
  - apply (formatAddress_long address 4); lia.
Qed.

Definition sol_mint : string := "So11111111111111111111111111111111111111112".

Lemma isValidAddress_spec_witness :
  isValidAddress sol_mint = true /\
  formatAddress sol_mint 4 = "So11...1112" /\ String.length (formatAddress sol_mint 4) = 11%nat.
Proof.
  assert (Hv : isValidAddress sol_mint = true) by (vm_compute; reflexivity).
  split; [exact Hv|].
  destruct (isValidAddress_spec sol_mint Hv) as (_ & _ & Hf & Hl).
  split; [rewrite Hf; reflexivity | exact Hl].
Defined.
